(** * The CA-bundle patch loop of the sidecar injector

    A shallow embedding of [patchCertLoop] from
    [pilot/cmd/sidecar-injector/main.go].

    The function talks to four external packages (the Kubernetes client,
    the file system, fsnotify and the ticker of package [time]).  Each
    external call is recorded in a trace of [Call]s, and the answer the
    call receives is taken from a [World]: a snapshot of what the external
    packages would answer at that moment.  The start-up code runs against
    one world; the goroutine it spawns is driven by a schedule, a list of
    wake-ups of its [select] statement, each paired with the world as it
    is when the wake-up is handled. *)

From Stdlib Require Import List String Ascii ZArith Lia Bool Arith.
Import ListNotations.

Local Open Scope string_scope.
Local Open Scope list_scope.

(** ** Go data *)

(** [[]byte]: a byte sequence.  Go's nil slice and its empty slice both
    have length 0 and are both the empty list here. *)
Definition bytes : Type := list Byte.byte.

(** An [error] value, identified with the text of its [Error()] method;
    Go's nil error is [None] of [option error]. *)
Definition error : Type := string.

(** [time.Duration]: a count of nanoseconds. *)
Definition Duration : Type := Z.

Module time.
Definition Nanosecond : Duration := 1%Z.
Definition Microsecond : Duration := (1000 * Nanosecond)%Z.
Definition Millisecond : Duration := (1000 * Microsecond)%Z.
Definition Second : Duration := (1000 * Millisecond)%Z.
End time.

(** The package-level [flags] struct (the two option structs of other
    packages, [loggingOptions] and [probeOptions], are left out: the
    patch loop never reads them). *)
Record Flags : Type := {
  meshconfig : string;
  injectConfigFile : string;
  certFile : string;
  privateKeyFile : string;
  caCertFile : string;
  port : Z;
  healthCheckInterval : Duration;
  healthCheckFile : string;
  kubeconfigFile : string;
  webhookConfigName : string;
  webhookName : string
}.

(** The defaults that [init] registers for the flags. *)
Definition default_flags : Flags := {|
  meshconfig := "/etc/istio/config/mesh";
  injectConfigFile := "/etc/istio/inject/config";
  certFile := "/etc/istio/certs/cert-chain.pem";
  privateKeyFile := "/etc/istio/certs/key.pem";
  caCertFile := "/etc/istio/certs/root-cert.pem";
  port := 443%Z;
  healthCheckInterval := 0%Z;
  healthCheckFile := "";
  kubeconfigFile := "";
  webhookConfigName := "istio-sidecar-injector";
  webhookName := "sidecar-injector.istio.io"
|}.

(** [fsnotify.FileEvent] (howeyc/fsnotify, Linux): the value received
    from [watcher.Event]. *)
Record FileEvent : Type := {
  mask : Z;
  cookie : Z;
  Name : string
}.

(** ** [filepath.Split] (package [path/filepath], Unix)

    [[
      i := len(path) - 1
      for i >= 0 && !os.IsPathSeparator(path[i]) { i-- }
      return path[:i+1], path[i+1:]
    ]]
    [scan_back path n] is [i+1] for the loop started at [i = n-1]. *)
Module filepath.
Definition IsPathSeparator (c : ascii) : bool := Ascii.eqb c "/"%char.

Definition byte_at (path : string) (i : nat) : ascii :=
  match String.get i path with
  | Some c => c
  | None => Ascii.zero
  end.

Fixpoint scan_back (path : string) (n : nat) : nat :=
  match n with
  | O => O
  | S i => if IsPathSeparator (byte_at path i) then S i else scan_back path i
  end.

Definition Split (path : string) : string * string :=
  let n := scan_back path (String.length path) in
  (String.substring 0 n path, String.substring n (String.length path - n) path).
End filepath.

(** ** External calls and the world that answers them *)

Section PatchCertLoop.

(** The handles returned by [kube.CreateClientset] and
    [fsnotify.NewWatcher]; the code only passes them on. *)
Context {Clientset Watcher : Type}.

(** One external call made by the code, with its arguments. *)
Inductive Call : Type :=
| CreateClientsetCall (kubeconfig context : string)
| ReadFileCall (filename : string)
| NewWatcherCall
| WatchCall (w : Watcher) (path : string)
| GoCall
| NewTickerCall (d : Duration)
| PatchMutatingWebhookConfigCall
    (client : Clientset) (webhookConfigName webhookName : string) (caBundle : bytes)
| ErrorfCall (msg : string).

(** What the external packages answer at one moment.  [ReadFile] is
    Go's pair of a byte slice and an error. *)
Record World : Type := {
  CreateClientset : string -> string -> Clientset + error;
  ReadFile : string -> bytes * option error;
  NewWatcher : Watcher + error;
  Watch : Watcher -> string -> option error;
  PatchMutatingWebhookConfig : Clientset -> string -> string -> bytes -> option error
}.

(** A computation that records the calls it makes. *)
Definition Traced (A : Type) : Type := (A * list Call)%type.

Definition ret {A : Type} (a : A) : Traced A := (a, []).

Definition bind {A B : Type} (m : Traced A) (k : A -> Traced B) : Traced B :=
  let (b, t) := k (fst m) in (b, snd m ++ t).

Definition call {A : Type} (c : Call) (answer : A) : Traced A := (answer, [c]).

Notation "x <- m ;; k" := (bind m (fun x => k))
  (at level 61, m at next level, right associativity).
Notation "m ;;; k" := (bind m (fun _ => k))
  (at level 61, right associativity).

Definition kube_CreateClientset (w : World) (kubeconfig context : string)
  : Traced (Clientset + error) :=
  call (CreateClientsetCall kubeconfig context) (CreateClientset w kubeconfig context).

Definition ioutil_ReadFile (w : World) (filename : string)
  : Traced (bytes * option error) :=
  call (ReadFileCall filename) (ReadFile w filename).

Definition fsnotify_NewWatcher (w : World) : Traced (Watcher + error) :=
  call NewWatcherCall (NewWatcher w).

Definition watcher_Watch (w : World) (watcher : Watcher) (path : string)
  : Traced (option error) :=
  call (WatchCall watcher path) (Watch w watcher path).

Definition util_PatchMutatingWebhookConfig (w : World) (client : Clientset)
    (configName name : string) (caBundle : bytes) : Traced (option error) :=
  call (PatchMutatingWebhookConfigCall client configName name caBundle)
       (PatchMutatingWebhookConfig w client configName name caBundle).

Definition log_Errorf (msg : string) : Traced unit := call (ErrorfCall msg) tt.

Definition time_NewTicker (d : Duration) : Traced unit := call (NewTickerCall d) tt.

(** ** The goroutine *)

(** The variables the function literal closes over ([client],
    [caCertPem], [err], [watcher]), with the package-level [flags] it
    reads. *)
Record Closure : Type := {
  flags : Flags;
  client : Clientset;
  caCertPem : bytes;
  err : option error;
  watcher : Watcher
}.

Definition set_caCertPem (st : Closure) (b : bytes) : Closure :=
  {| flags := flags st; client := client st; caCertPem := b;
     err := err st; watcher := watcher st |}.

Definition set_err (st : Closure) (e : option error) : Closure :=
  {| flags := flags st; client := client st; caCertPem := caCertPem st;
     err := e; watcher := watcher st |}.

(** Which case of the [select] fires. *)
Inductive Wakeup : Type :=
| tickerC
| watcher_Event (ev : FileEvent).

(** One iteration of [for { select { ... } }]. *)
Definition select_iteration (st : Closure) (w : World) (wk : Wakeup)
  : Traced Closure :=
  match wk with
  | tickerC =>
      e <- util_PatchMutatingWebhookConfig w (client st)
             (webhookConfigName (flags st)) (webhookName (flags st))
             (caCertPem st) ;;
      let st := set_err st e in
      match e with
      | Some msg => log_Errorf ("Patch webhook failed: " ++ msg)%string ;;; ret st
      | None => ret st
      end
  | watcher_Event _ =>
      r <- ioutil_ReadFile w (caCertFile (flags st)) ;;
      match snd r with
      | None => ret (set_caCertPem st (fst r))
      | Some msg => log_Errorf ("CA bundle file read error: " ++ msg)%string ;;; ret st
      end
  end.

(** The loop over a finite prefix of the wake-ups. *)
Fixpoint loop (st : Closure) (schedule : list (World * Wakeup)) : Traced Closure :=
  match schedule with
  | [] => ret st
  | (w, wk) :: rest => st' <- select_iteration st w wk ;; loop st' rest
  end.

(** The body of [go func() { ... }()]: arm the ticker, then loop. *)
Definition goroutine (st : Closure) (schedule : list (World * Wakeup))
  : Traced Closure :=
  time_NewTicker time.Second ;;; loop st schedule.

(** ** [patchCertLoop] *)

(** The error [patchCertLoop] returns, and the closure of the goroutine
    it has started, if any. *)
Definition Started : Type := (option error * option Closure)%type.

Definition patchCertLoop (fl : Flags) (w : World) : Traced Started :=
  c <- kube_CreateClientset w (kubeconfigFile fl) "" ;;
  match c with
  | inr e => ret (Some e, None)
  | inl client =>
      r <- ioutil_ReadFile w (caCertFile fl) ;;
      match snd r with
      | Some e => ret (Some e, None)
      | None =>
          let caCertPem := fst r in
          nw <- fsnotify_NewWatcher w ;;
          match nw with
          | inr e => ret (Some e, None)
          | inl watcher =>
              let watchDir := fst (filepath.Split (caCertFile fl)) in
              e <- watcher_Watch w watcher watchDir ;;
              match e with
              | Some msg =>
                  ret (Some ("could not watch " ++ caCertFile fl ++ ": " ++ msg)%string, None)
              | None =>
                  call GoCall tt ;;;
                  ret (None,
                       Some {| flags := fl; client := client; caCertPem := caCertPem;
                               err := None; watcher := watcher |})
              end
          end
      end
  end.

(** The whole behaviour: start-up in the world [w0], then the goroutine
    (if it was started) on the schedule. *)
Definition run (fl : Flags) (w0 : World) (schedule : list (World * Wakeup))
  : Traced (option error * option Closure) :=
  s <- patchCertLoop fl w0 ;;
  match snd s with
  | None => ret s
  | Some st => st' <- goroutine st schedule ;; ret (fst s, Some st')
  end.

(** The patch call a tick issues from the closure [st]. *)
Definition patch_of (st : Closure) : Call :=
  PatchMutatingWebhookConfigCall (client st)
    (webhookConfigName (flags st)) (webhookName (flags st)) (caCertPem st).

(** ** Reading a trace *)

Definition is_patch (c : Call) : bool :=
  match c with
  | PatchMutatingWebhookConfigCall _ _ _ _ => true
  | _ => false
  end.

(** The patch calls of a trace, in order. *)
Definition patch_calls (t : list Call) : list Call := filter is_patch t.

Definition is_go (c : Call) : bool :=
  match c with
  | GoCall => true
  | _ => false
  end.

(** The file names read in a trace, in order. *)
Fixpoint read_paths (t : list Call) : list string :=
  match t with
  | [] => []
  | ReadFileCall p :: t' => p :: read_paths t'
  | _ :: t' => read_paths t'
  end.

(** The paths a watch was registered on. *)
Fixpoint watched_paths (t : list Call) : list string :=
  match t with
  | [] => []
  | WatchCall _ p :: t' => p :: watched_paths t'
  | _ :: t' => watched_paths t'
  end.

(** The intervals tickers were armed with. *)
Fixpoint ticker_intervals (t : list Call) : list Duration :=
  match t with
  | [] => []
  | NewTickerCall d :: t' => d :: ticker_intervals t'
  | _ :: t' => ticker_intervals t'
  end.

(** The resource name and entry name of each patch call. *)
Fixpoint patch_targets (t : list Call) : list (string * string) :=
  match t with
  | [] => []
  | PatchMutatingWebhookConfigCall _ cfg name _ :: t' => (cfg, name) :: patch_targets t'
  | _ :: t' => patch_targets t'
  end.

(** The messages logged in a trace. *)
Fixpoint logged (t : list Call) : list string :=
  match t with
  | [] => []
  | ErrorfCall m :: t' => m :: logged t'
  | _ :: t' => logged t'
  end.

(** ** The schedule, as the specification speaks of it *)

Definition is_tick (e : World * Wakeup) : bool :=
  match snd e with
  | tickerC => true
  | watcher_Event _ => false
  end.

(** The number of timer ticks in a schedule. *)
Definition ticks (schedule : list (World * Wakeup)) : nat :=
  List.length (filter is_tick schedule).

(** The content of the most recent successful read of the file [path]
    among the file-system notifications of the schedule, or [initial] if
    none of them read it successfully. *)
Fixpoint last_successful_read (path : string) (initial : bytes)
    (schedule : list (World * Wakeup)) : bytes :=
  match schedule with
  | [] => initial
  | (w, watcher_Event _) :: rest =>
      match snd (ReadFile w path) with
      | None => last_successful_read path (fst (ReadFile w path)) rest
      | Some _ => last_successful_read path initial rest
      end
  | (_, tickerC) :: rest => last_successful_read path initial rest
  end.

(** A burst of file-system notifications, each handled in its world. *)
Definition burst_of_events (l : list (World * FileEvent)) : list (World * Wakeup) :=
  map (fun e => (fst e, watcher_Event (snd e))) l.

(** Consecutive timer ticks, each handled in its world. *)
Definition ticks_in (l : list World) : list (World * Wakeup) :=
  map (fun w => (w, tickerC)) l.

(** The start-up steps, as answered by a world. *)
Definition client_created (fl : Flags) (w : World) : bool :=
  match CreateClientset w (kubeconfigFile fl) "" with
  | inl _ => true
  | inr _ => false
  end.

Definition initial_read_ok (fl : Flags) (w : World) : bool :=
  match snd (ReadFile w (caCertFile fl)) with
  | None => true
  | Some _ => false
  end.

Definition watcher_created (w : World) : bool :=
  match NewWatcher w with
  | inl _ => true
  | inr _ => false
  end.

Definition watch_registered (fl : Flags) (w : World) : bool :=
  match NewWatcher w with
  | inl wt =>
      match Watch w wt (fst (filepath.Split (caCertFile fl))) with
      | None => true
      | Some _ => false
      end
  | inr _ => false
  end.

(** The error of the first start-up step that fails, the error of the
    watch registration wrapped in its message. *)
Definition first_startup_failure (fl : Flags) (w : World) : option error :=
  match CreateClientset w (kubeconfigFile fl) "" with
  | inr e => Some e
  | inl _ =>
      match snd (ReadFile w (caCertFile fl)) with
      | Some e => Some e
      | None =>
          match NewWatcher w with
          | inr e => Some e
          | inl wt =>
              match Watch w wt (fst (filepath.Split (caCertFile fl))) with
              | Some msg =>
                  Some ("could not watch " ++ caCertFile fl ++ ": " ++ msg)%string
              | None => None
              end
          end
      end
  end.

Definition returned_error (r : Traced Started) : option error := fst (fst r).

Definition succeeded (r : Traced Started) : bool :=
  match returned_error r with
  | None => true
  | Some _ => false
  end.

Definition started (r : Traced Started) : bool :=
  match snd (fst r) with
  | Some _ => true
  | None => false
  end.

End PatchCertLoop.

(** ** Concrete worlds *)

Definition CERT_A : bytes := list_byte_of_string "CERT_A".
Definition CERT_B : bytes := list_byte_of_string "CERT_B".

(** A healthy world in which every file holds [content]. *)
Definition world_with (content : bytes) : @World unit unit := {|
  CreateClientset := fun _ _ => inl tt;
  ReadFile := fun _ => (content, None);
  NewWatcher := inl tt;
  Watch := fun _ _ => None;
  PatchMutatingWebhookConfig := fun _ _ _ _ => None
|}.

(** A world in which the certificate file is missing. *)
Definition world_missing_file : @World unit unit := {|
  CreateClientset := fun _ _ => inl tt;
  ReadFile := fun _ => ([], Some "no such file or directory");
  NewWatcher := inl tt;
  Watch := fun _ _ => None;
  PatchMutatingWebhookConfig := fun _ _ _ _ => None
|}.

(** A world in which the API server rejects every patch. *)
Definition world_patch_fails (content : bytes) : @World unit unit := {|
  CreateClientset := fun _ _ => inl tt;
  ReadFile := fun _ => (content, None);
  NewWatcher := inl tt;
  Watch := fun _ _ => None;
  PatchMutatingWebhookConfig := fun _ _ _ _ => Some "not found"
|}.

(** A world in which no Kubernetes client can be built, while the file
    system and the watcher are healthy. *)
Definition world_no_client : @World unit unit := {|
  CreateClientset := fun _ _ => inr "invalid configuration";
  ReadFile := fun _ => (CERT_A, None);
  NewWatcher := inl tt;
  Watch := fun _ _ => None;
  PatchMutatingWebhookConfig := fun _ _ _ _ => None
|}.

(** A world in which only the file named [path] exists. *)
Definition world_only_file (path : string) (content : bytes) : @World unit unit := {|
  CreateClientset := fun _ _ => inl tt;
  ReadFile := fun p => if String.eqb p path then (content, None)
                       else ([], Some "no such file or directory");
  NewWatcher := inl tt;
  Watch := fun _ _ => None;
  PatchMutatingWebhookConfig := fun _ _ _ _ => None
|}.

(** A notification for the file [name] ([mask] 2 is IN_MODIFY). *)
Definition ev (name : string) : FileEvent := {| mask := 2%Z; cookie := 0%Z; Name := name |}.

(** The closure of a goroutine started with the default flags and the
    certificate [content]. *)
Definition closure_with (content : bytes) : @Closure unit unit := {|
  flags := default_flags; client := tt; caCertPem := content;
  err := None; watcher := tt
|}.

(** Flags with every value set on the command line, the one duration
    among them to five seconds. *)
Definition custom_flags : Flags := {|
  meshconfig := "/cfg/mesh";
  injectConfigFile := "/cfg/inject";
  certFile := "/certs/cert-chain.pem";
  privateKeyFile := "/certs/key.pem";
  caCertFile := "/certs/ca.pem";
  port := 8443%Z;
  healthCheckInterval := (5 * time.Second)%Z;
  healthCheckFile := "/health";
  kubeconfigFile := "/home/user/.kube/config";
  webhookConfigName := "custom-injector";
  webhookName := "custom.istio.io"
|}.

(** The scenario of the specification: the file holds [CERT_A] at
    start-up and at the first tick, is rewritten to [CERT_B], and the
    rewrite is notified before the second tick. *)
Definition rotation : list (@World unit unit * Wakeup) :=
  [(world_with CERT_A, tickerC);
   (world_with CERT_B, watcher_Event (ev "/etc/istio/certs/root-cert.pem"))].

(** Three notifications within one interval: a rewrite to [CERT_B], a
    moment at which the file is missing, and a change of another file. *)
Definition three_events : list (@World unit unit * FileEvent) :=
  [(world_with CERT_B, ev "/etc/istio/certs/root-cert.pem");
   (world_missing_file, ev "/etc/istio/certs/root-cert.pem");
   (world_with CERT_B, ev "/etc/istio/certs/key.pem")].

(** ** More readings of traces and schedules *)

Section Readings.

Context {Clientset Watcher : Type}.

(** The bundles of the patch calls of a trace, in order. *)
Fixpoint patched_bundles (t : list (@Call Clientset Watcher)) : list bytes :=
  match t with
  | [] => []
  | PatchMutatingWebhookConfigCall _ _ _ b :: t' => b :: patched_bundles t'
  | _ :: t' => patched_bundles t'
  end.

(** The contents of the successful reads of [path] among the
    notifications of a schedule, in order. *)
Fixpoint successful_reads (path : string)
    (schedule : list (@World Clientset Watcher * Wakeup)) : list bytes :=
  match schedule with
  | [] => []
  | (w, watcher_Event _) :: rest =>
      match snd (ReadFile w path) with
      | None => fst (ReadFile w path) :: successful_reads path rest
      | Some _ => successful_reads path rest
      end
  | (_, tickerC) :: rest => successful_reads path rest
  end.

(** The number of file-system notifications in a schedule. *)
Definition notifications (schedule : list (@World Clientset Watcher * Wakeup)) : nat :=
  List.length (filter (fun e => negb (is_tick e)) schedule).

(** In the world [w] the read of [path] succeeds and so does every
    patch. *)
Definition healthy (path : string) (w : @World Clientset Watcher) : Prop :=
  snd (ReadFile w path) = None /\
  forall c cfg name b, PatchMutatingWebhookConfig w c cfg name b = None.

Definition is_read (c : @Call Clientset Watcher) : bool :=
  match c with
  | ReadFileCall _ => true
  | _ => false
  end.

Definition is_new_watcher (c : @Call Clientset Watcher) : bool :=
  match c with
  | NewWatcherCall => true
  | _ => false
  end.

Definition is_watch (c : @Call Clientset Watcher) : bool :=
  match c with
  | WatchCall _ _ => true
  | _ => false
  end.

(** No byte of [s] is a path separator. *)
Definition no_separator (s : string) : Prop :=
  forall i, i < String.length s ->
    filepath.IsPathSeparator (filepath.byte_at s i) = false.

(** [s] is empty or its last byte is a path separator. *)
Definition ends_in_separator (s : string) : Prop :=
  s = EmptyString \/
  exists j, String.length s = S j /\
    filepath.IsPathSeparator (filepath.byte_at s j) = true.

End Readings.

(** ** The commands *)

(** [inject.WebhookParameters], as [RunE] fills it. *)
Record WebhookParameters : Type := {
  ConfigFile : string;
  MeshFile : string;
  CertFile : string;
  KeyFile : string;
  Port : Z;
  HealthCheckInterval : Duration;
  HealthCheckFile : string
}.

(** [probe.Options], the [probeOptions] field of the flags. *)
Record probe_Options : Type := {
  Path : string;
  UpdateInterval : Duration
}.

Section Commands.

Context {Clientset Watcher Webhook : Type}.

(** The calls of [rootCmd.RunE]; those of [patchCertLoop] are carried
    over. *)
Inductive MainCall : Type :=
| PrintFlagsCall
| ConfigureCall
| InfofCall (msg : string)
| NewWebhookCall (p : WebhookParameters)
| PatchCertLoopCall (c : @Call Clientset Watcher)
| GoRunCall (wh : Webhook)
| WaitSignalCall.

(** What the packages used by [RunE] answer.  [Prefix] is
    [multierror.Prefix] on a non-nil error, which it never turns into
    nil. *)
Record MainWorld : Type := {
  Configure : option error;
  version_Info : string;
  NewWebhook : WebhookParameters -> Webhook + error;
  Prefix : error -> string -> error;
  world : @World Clientset Watcher
}.

(** The [inject.WebhookParameters] literal of [RunE]. *)
Definition parameters_of (fl : Flags) : WebhookParameters := {|
  ConfigFile := injectConfigFile fl;
  MeshFile := meshconfig fl;
  CertFile := certFile fl;
  KeyFile := privateKeyFile fl;
  Port := port fl;
  HealthCheckInterval := healthCheckInterval fl;
  HealthCheckFile := healthCheckFile fl
|}.

(** [rootCmd.RunE]: the error returned, the closure of the patch loop if
    it was started, and the calls made.  [cmd.WaitSignal] returns when
    the process is signalled. *)
Definition rootCmd_RunE (fl : Flags) (mw : MainWorld)
  : (option error * option (@Closure Clientset Watcher)) * list MainCall :=
  let t0 := [PrintFlagsCall; ConfigureCall] in
  match Configure mw with
  | Some e => ((Some e, None), t0)
  | None =>
      let parameters := parameters_of fl in
      let t1 := t0 ++ [InfofCall ("version " ++ version_Info mw)%string;
                       NewWebhookCall parameters] in
      match NewWebhook mw parameters with
      | inr e => ((Some (Prefix mw e "failed to create injection webhook"), None), t1)
      | inl wh =>
          let r := patchCertLoop fl (world mw) in
          let t2 := t1 ++ map PatchCertLoopCall (snd r) in
          match fst (fst r) with
          | Some e => ((Some (Prefix mw e "failed to start patch cert loop"), None), t2)
          | None => ((None, snd (fst r)), t2 ++ [GoRunCall wh; WaitSignalCall])
          end
      end
  end.

(** The calls of [patchCertLoop] within a trace of [RunE]. *)
Fixpoint patchCertLoop_calls (t : list MainCall) : list (@Call Clientset Watcher) :=
  match t with
  | [] => []
  | PatchCertLoopCall c :: t' => c :: patchCertLoop_calls t'
  | _ :: t' => patchCertLoop_calls t'
  end.

(** The webhooks whose [Run] was started. *)
Fixpoint webhooks_run (t : list MainCall) : list Webhook :=
  match t with
  | [] => []
  | GoRunCall wh :: t' => wh :: webhooks_run t'
  | _ :: t' => webhooks_run t'
  end.

(** The parameters webhooks were created with. *)
Fixpoint webhook_parameters (t : list MainCall) : list WebhookParameters :=
  match t with
  | [] => []
  | NewWebhookCall p :: t' => p :: webhook_parameters t'
  | _ :: t' => webhook_parameters t'
  end.

Definition is_wait_signal (c : MainCall) : bool :=
  match c with
  | WaitSignalCall => true
  | _ => false
  end.

Definition webhook_created (fl : Flags) (mw : MainWorld) : bool :=
  match NewWebhook mw (parameters_of fl) with
  | inl _ => true
  | inr _ => false
  end.

(** Every start-up step of [RunE] succeeds: the logging configuration,
    the creation of the webhook, and the four calls of [patchCertLoop]. *)
Definition all_steps_ok (fl : Flags) (mw : MainWorld) : bool :=
  match Configure mw with None => true | Some _ => false end &&
  webhook_created fl mw &&
  client_created fl (world mw) && initial_read_ok fl (world mw) &&
  watcher_created (world mw) && watch_registered fl (world mw).

Definition log_configured (mw : MainWorld) : bool :=
  match Configure mw with
  | None => true
  | Some _ => false
  end.

End Commands.

(** What [probeCmd.RunE] relies on: [Options.IsValid] and the answer of
    [FileClient.GetStatus] of package [probe]. *)
Record ProbeWorld : Type := {
  IsValid : probe_Options -> bool;
  GetStatus : probe_Options -> option error
}.

Inductive ProbeCall : Type :=
| GetStatusCall (o : probe_Options)
| PrintlnCall (line : string).

(** [probeCmd.RunE]. *)
Definition probeCmd_RunE (o : probe_Options) (pw : ProbeWorld)
  : option error * list ProbeCall :=
  if negb (IsValid pw o) then (Some "some options are not valid", [])
  else
    match GetStatus pw o with
    | Some e =>
        (Some ("fail on inspecting path " ++ Path o ++ ": " ++ e)%string,
         [GetStatusCall o])
    | None => (None, [GetStatusCall o; PrintlnCall "OK"])
    end.

Definition status_ok (o : probe_Options) (pw : ProbeWorld) : bool :=
  match GetStatus pw o with
  | None => true
  | Some _ => false
  end.

(** The lines printed in a trace of the probe command. *)
Fixpoint printed (t : list ProbeCall) : list string :=
  match t with
  | [] => []
  | PrintlnCall l :: t' => l :: printed t'
  | _ :: t' => printed t'
  end.

(** The options [GetStatus] was asked about. *)
Fixpoint inspected (t : list ProbeCall) : list probe_Options :=
  match t with
  | [] => []
  | GetStatusCall o :: t' => o :: inspected t'
  | _ :: t' => inspected t'
  end.

(** ** Concrete inputs for the commands *)

(** A file name without a directory. *)
Definition bare_flags : Flags := {|
  meshconfig := "/etc/istio/config/mesh";
  injectConfigFile := "/etc/istio/inject/config";
  certFile := "/etc/istio/certs/cert-chain.pem";
  privateKeyFile := "/etc/istio/certs/key.pem";
  caCertFile := "root-cert.pem";
  port := 443%Z;
  healthCheckInterval := 0%Z;
  healthCheckFile := "";
  kubeconfigFile := "";
  webhookConfigName := "istio-sidecar-injector";
  webhookName := "sidecar-injector.istio.io"
|}.

(** The same file, named through its directory. *)
Definition dot_flags : Flags := {|
  meshconfig := "/etc/istio/config/mesh";
  injectConfigFile := "/etc/istio/inject/config";
  certFile := "/etc/istio/certs/cert-chain.pem";
  privateKeyFile := "/etc/istio/certs/key.pem";
  caCertFile := "./root-cert.pem";
  port := 443%Z;
  healthCheckInterval := 0%Z;
  healthCheckFile := "";
  kubeconfigFile := "";
  webhookConfigName := "istio-sidecar-injector";
  webhookName := "sidecar-injector.istio.io"
|}.

(** A healthy world in which every file holds [content] and the watcher,
    as inotify does, finds nothing to watch at the empty path. *)
Definition world_no_empty_watch (content : bytes) : @World unit unit := {|
  CreateClientset := fun _ _ => inl tt;
  ReadFile := fun _ => (content, None);
  NewWatcher := inl tt;
  Watch := fun _ p => if String.eqb p EmptyString
                      then Some "no such file or directory" else None;
  PatchMutatingWebhookConfig := fun _ _ _ _ => None
|}.

(** A healthy world for [RunE], around the patch-loop world [w]. *)
Definition main_world (w : @World unit unit) : @MainWorld unit unit unit := {|
  Configure := None;
  version_Info := "1.0";
  NewWebhook := fun _ => inl tt;
  Prefix := fun e p => (p ++ " " ++ e)%string;
  world := w
|}.

(** A world in which the webhook cannot be created. *)
Definition main_world_no_webhook : @MainWorld unit unit unit := {|
  Configure := None;
  version_Info := "1.0";
  NewWebhook := fun _ => inr "no such file or directory";
  Prefix := fun e p => (p ++ " " ++ e)%string;
  world := world_with CERT_A
|}.

(** A tick at which the patch fails, between a rewrite of the file and
    the next tick. *)
Definition failing_between : list (@World unit unit * Wakeup) :=
  [(world_patch_fails CERT_A, tickerC);
   (world_missing_file, watcher_Event (ev "/etc/istio/certs/root-cert.pem"))].

(** * Properties *)

(** ** [filepath.Split] *)

Module SplitFacts.
Import filepath.

Lemma scan_back_le path n : scan_back path n <= n.
Proof.
  induction n as [|i IH]; simpl; [lia|].
  destruct (IsPathSeparator (byte_at path i)); lia.
Qed.

(** Nothing at or after the cut is a separator. *)
Lemma scan_back_no_separator path n i :
  scan_back path n <= i < n -> IsPathSeparator (byte_at path i) = false.
Proof.
  induction n as [|j IH]; simpl; [lia|].
  destruct (IsPathSeparator (byte_at path j)) eqn:E; [lia|].
  intros H. destruct (Nat.eq_dec i j) as [->|Hne]; [exact E|].
  apply IH. lia.
Qed.

(** The cut is at the start or just after a separator. *)
Lemma scan_back_separator path n :
  scan_back path n = 0 \/
  exists j, scan_back path n = S j /\ IsPathSeparator (byte_at path j) = true.
Proof.
  induction n as [|i IH]; simpl; [left; reflexivity|].
  destruct (IsPathSeparator (byte_at path i)) eqn:E; [|exact IH].
  right. exists i. split; [reflexivity|exact E].
Qed.

Lemma substring_cut s n :
  n <= String.length s ->
  (substring 0 n s ++ substring n (String.length s - n) s)%string = s.
Proof.
  revert n. induction s as [|c s IH]; intros n Hn.
  - destruct n; reflexivity.
  - destruct n as [|n].
    + simpl. f_equal.
      specialize (IH 0 (Nat.le_0_l _)). simpl in IH.
      replace (substring 0 0 s) with EmptyString in IH by (destruct s; reflexivity).
      rewrite Nat.sub_0_r in IH. exact IH.
    + simpl in Hn. simpl. f_equal. apply IH. lia.
Qed.

Lemma length_substring_prefix s n :
  n <= String.length s -> String.length (substring 0 n s) = n.
Proof.
  revert n. induction s as [|c s IH]; intros n Hn.
  - destruct n; simpl in *; [reflexivity|lia].
  - destruct n as [|n]; [reflexivity|].
    simpl in *. f_equal. apply IH. lia.
Qed.

Lemma length_substring s n m :
  n + m <= String.length s -> String.length (substring n m s) = m.
Proof.
  revert n m. induction s as [|c s IH]; intros n m H.
  - destruct n, m; simpl in *; try reflexivity; lia.
  - destruct n as [|n].
    + destruct m as [|m]; [reflexivity|]. simpl in *. f_equal. apply (IH 0). lia.
    + simpl in *. apply IH. lia.
Qed.

(** The two parts of [Split] make up the path. *)
Lemma Split_append path :
  (fst (Split path) ++ snd (Split path))%string = path.
Proof. unfold Split. simpl. apply substring_cut, scan_back_le. Qed.

(** The file part holds no separator. *)
Lemma Split_file_no_separator path i :
  i < String.length (snd (Split path)) ->
  IsPathSeparator (byte_at (snd (Split path)) i) = false.
Proof.
  unfold Split. simpl. set (n := scan_back path (String.length path)).
  assert (Hn : n <= String.length path) by apply scan_back_le.
  rewrite length_substring by lia. intros Hi.
  unfold byte_at at 1. rewrite substring_correct1 by exact Hi.
  apply (scan_back_no_separator path (String.length path)). fold n. lia.
Qed.

(** The directory part is empty or ends in a separator. *)
Lemma Split_dir_ends_in_separator path :
  fst (Split path) = EmptyString \/
  exists j, String.length (fst (Split path)) = S j /\
            IsPathSeparator (byte_at (fst (Split path)) j) = true.
Proof.
  unfold Split. simpl. set (n := scan_back path (String.length path)).
  assert (Hn : n <= String.length path) by apply scan_back_le.
  destruct (scan_back_separator path (String.length path)) as [H0|(j & Hj & Hsep)];
    fold n in H0 || fold n in Hj.
  - left. rewrite H0. destruct path; reflexivity.
  - right. exists j. split; [rewrite length_substring_prefix; assumption|].
    unfold byte_at. rewrite substring_correct1 by lia.
    rewrite Nat.add_0_r. exact Hsep.
Qed.

(** The directory part is the whole path only if the file part is empty. *)
Lemma Split_dir_is_path path :
  fst (Split path) = path -> snd (Split path) = EmptyString.
Proof.
  intros H. pose proof (Split_append path) as Ha.
  assert (Hl : String.length (snd (Split path)) = 0).
  { unfold Split in *. simpl in *.
    set (n := scan_back path (String.length path)) in *.
    assert (Hn : n <= String.length path) by apply scan_back_le.
    apply (f_equal String.length) in H.
    rewrite length_substring_prefix in H by exact Hn.
    rewrite length_substring by lia. lia. }
  destruct (snd (Split path)); [reflexivity|discriminate].
Qed.

End SplitFacts.

Section Properties.

Context {Clientset Watcher : Type}.

Implicit Types (st : @Closure Clientset Watcher) (w : @World Clientset Watcher)
  (fl : Flags) (wk : Wakeup)
  (schedule pre rest : list (@World Clientset Watcher * Wakeup))
  (t ta tb : list (@Call Clientset Watcher)).

(** ** The trace monad *)

Lemma fst_bind {A B} (m : Traced (Clientset:=Clientset) (Watcher:=Watcher) A)
    (k : A -> Traced B) :
  fst (bind m k) = fst (k (fst m)).
Proof. unfold bind. destruct (k (fst m)); reflexivity. Qed.

Lemma snd_bind {A B} (m : Traced (Clientset:=Clientset) (Watcher:=Watcher) A)
    (k : A -> Traced B) :
  snd (bind m k) = snd m ++ snd (k (fst m)).
Proof. unfold bind. destruct (k (fst m)); reflexivity. Qed.

Lemma patch_calls_app ta tb :
  patch_calls (ta ++ tb) = patch_calls ta ++ patch_calls tb.
Proof. apply filter_app. Qed.

Lemma read_paths_app ta tb : read_paths (ta ++ tb) = read_paths ta ++ read_paths tb.
Proof.
  induction ta as [|c ta IH]; [reflexivity|].
  destruct c; simpl; rewrite IH; reflexivity.
Qed.

Lemma ticker_intervals_app ta tb :
  ticker_intervals (ta ++ tb) = ticker_intervals ta ++ ticker_intervals tb.
Proof.
  induction ta as [|c ta IH]; [reflexivity|].
  destruct c; simpl; rewrite IH; reflexivity.
Qed.

Lemma logged_app ta tb : logged (ta ++ tb) = logged ta ++ logged tb.
Proof.
  induction ta as [|c ta IH]; [reflexivity|].
  destruct c; simpl; rewrite IH; reflexivity.
Qed.

(** ** One iteration *)

Lemma tick_state st w :
  fst (select_iteration st w tickerC) =
  set_err st (PatchMutatingWebhookConfig w (client st)
                (webhookConfigName (flags st)) (webhookName (flags st)) (caCertPem st)).
Proof.
  unfold select_iteration, util_PatchMutatingWebhookConfig, call.
  rewrite fst_bind. simpl.
  destruct (PatchMutatingWebhookConfig w _ _ _ _); reflexivity.
Qed.

Lemma tick_trace st w :
  snd (select_iteration st w tickerC) =
  patch_of st ::
  match PatchMutatingWebhookConfig w (client st)
          (webhookConfigName (flags st)) (webhookName (flags st)) (caCertPem st) with
  | Some msg => [ErrorfCall ("Patch webhook failed: " ++ msg)%string]
  | None => []
  end.
Proof.
  unfold select_iteration, util_PatchMutatingWebhookConfig, call.
  rewrite snd_bind. simpl.
  destruct (PatchMutatingWebhookConfig w _ _ _ _); reflexivity.
Qed.

Lemma tick_patch_calls st w :
  patch_calls (snd (select_iteration st w tickerC)) = [patch_of st].
Proof.
  rewrite tick_trace. unfold patch_calls, patch_of. simpl.
  destruct (PatchMutatingWebhookConfig w _ _ _ _); reflexivity.
Qed.

Lemma event_state st w fe :
  fst (select_iteration st w (watcher_Event fe)) =
  match snd (ReadFile w (caCertFile (flags st))) with
  | None => set_caCertPem st (fst (ReadFile w (caCertFile (flags st))))
  | Some _ => st
  end.
Proof.
  unfold select_iteration, ioutil_ReadFile, call.
  rewrite fst_bind. simpl.
  destruct (snd (ReadFile w _)); reflexivity.
Qed.

Lemma event_trace st w fe :
  snd (select_iteration st w (watcher_Event fe)) =
  ReadFileCall (caCertFile (flags st)) ::
  match snd (ReadFile w (caCertFile (flags st))) with
  | None => []
  | Some msg => [ErrorfCall ("CA bundle file read error: " ++ msg)%string]
  end.
Proof.
  unfold select_iteration, ioutil_ReadFile, call.
  rewrite snd_bind. simpl.
  destruct (snd (ReadFile w _)); reflexivity.
Qed.

(** No iteration touches [flags], [client] or [watcher]. *)
Lemma select_iteration_frame st w wk :
  flags (fst (select_iteration st w wk)) = flags st /\
  client (fst (select_iteration st w wk)) = client st /\
  watcher (fst (select_iteration st w wk)) = watcher st.
Proof.
  destruct wk as [|fe].
  - rewrite tick_state. simpl. auto.
  - rewrite event_state. destruct (snd (ReadFile w _)); simpl; auto.
Qed.

(** ** The loop *)

Lemma loop_cons st w wk schedule :
  loop st ((w, wk) :: schedule) =
  bind (select_iteration st w wk) (fun st' => loop st' schedule).
Proof. reflexivity. Qed.

Lemma loop_app_state st pre rest :
  fst (loop st (pre ++ rest)) = fst (loop (fst (loop st pre)) rest).
Proof.
  revert st. induction pre as [|[w wk] pre IH]; intros st; [reflexivity|].
  simpl app. rewrite !loop_cons, !fst_bind. apply IH.
Qed.

Lemma loop_app_trace st pre rest :
  snd (loop st (pre ++ rest)) =
  snd (loop st pre) ++ snd (loop (fst (loop st pre)) rest).
Proof.
  revert st. induction pre as [|[w wk] pre IH]; intros st; [reflexivity|].
  simpl app. rewrite !loop_cons, !snd_bind, !fst_bind, IH, app_assoc. reflexivity.
Qed.

Lemma loop_frame st schedule :
  flags (fst (loop st schedule)) = flags st /\
  client (fst (loop st schedule)) = client st /\
  watcher (fst (loop st schedule)) = watcher st.
Proof.
  revert st. induction schedule as [|[w wk] rest IH]; intros st.
  - simpl. auto.
  - rewrite loop_cons, fst_bind.
    destruct (IH (fst (select_iteration st w wk))) as (Hf & Hc & Hw).
    destruct (select_iteration_frame st w wk) as (Hf' & Hc' & Hw').
    repeat split; congruence.
Qed.

(** The cache always holds the last successful read. *)
Lemma loop_cache st schedule :
  caCertPem (fst (loop st schedule)) =
  last_successful_read (caCertFile (flags st)) (caCertPem st) schedule.
Proof.
  revert st. induction schedule as [|[w wk] rest IH]; intros st; [reflexivity|].
  rewrite loop_cons, fst_bind, IH.
  destruct (select_iteration_frame st w wk) as (Hf & _). rewrite Hf.
  destruct wk as [|fe].
  - rewrite tick_state. reflexivity.
  - rewrite event_state. cbn [last_successful_read].
    destruct (snd (ReadFile w _)); reflexivity.
Qed.

(** The variable [err] is written by a tick and read nowhere else: the
    calls of the loop and the cache do not depend on it. *)
Lemma loop_err_irrelevant st e schedule :
  snd (loop (set_err st e) schedule) = snd (loop st schedule) /\
  caCertPem (fst (loop (set_err st e) schedule)) = caCertPem (fst (loop st schedule)).
Proof.
  split; [|rewrite !loop_cache; reflexivity].
  revert st e. induction schedule as [|[w wk] rest IH]; intros st e; [reflexivity|].
  rewrite !loop_cons, !snd_bind. destruct wk as [|fe].
  - rewrite !tick_state, !tick_trace. reflexivity.
  - rewrite !event_state, !event_trace. simpl. f_equal. f_equal.
    destruct (snd (ReadFile w _)); [apply IH|].
    apply (IH (set_caCertPem st _) e).
Qed.

(** ** Start-up *)

(** Every way [patchCertLoop] can go, by the answers of the world. *)
Lemma patchCertLoop_cases fl w :
  let dir := fst (filepath.Split (caCertFile fl)) in
  let c1 := CreateClientsetCall (kubeconfigFile fl) "" in
  let c2 := ReadFileCall (caCertFile fl) in
  match CreateClientset w (kubeconfigFile fl) "" with
  | inr e => patchCertLoop fl w = (Some e, None, [c1])
  | inl cl =>
      match snd (ReadFile w (caCertFile fl)) with
      | Some e => patchCertLoop fl w = (Some e, None, [c1; c2])
      | None =>
          match NewWatcher w with
          | inr e => patchCertLoop fl w = (Some e, None, [c1; c2; NewWatcherCall])
          | inl wt =>
              match Watch w wt dir with
              | Some msg =>
                  patchCertLoop fl w =
                  (Some ("could not watch " ++ caCertFile fl ++ ": " ++ msg)%string, None,
                   [c1; c2; NewWatcherCall; WatchCall wt dir])
              | None =>
                  patchCertLoop fl w =
                  (None,
                   Some {| flags := fl; client := cl;
                           caCertPem := fst (ReadFile w (caCertFile fl));
                           err := None; watcher := wt |},
                   [c1; c2; NewWatcherCall; WatchCall wt dir; GoCall])
              end
          end
      end
  end.
Proof.
  cbv zeta.
  unfold patchCertLoop, kube_CreateClientset, ioutil_ReadFile, fsnotify_NewWatcher,
    watcher_Watch, call, bind, ret. simpl.
  destruct (CreateClientset w (kubeconfigFile fl) "") as [cl|e]; [|reflexivity].
  destruct (snd (ReadFile w (caCertFile fl))) as [e|]; [reflexivity|].
  destruct (NewWatcher w) as [wt|e]; [|reflexivity]. simpl.
  destruct (Watch w wt _) as [msg|]; reflexivity.
Qed.

(** When [patchCertLoop] has started the goroutine, every start-up call
    succeeded, the closure is the one built from their answers, and the
    trace is the five start-up calls. *)
Lemma patchCertLoop_started fl w st :
  snd (fst (patchCertLoop fl w)) = Some st ->
  exists cl wt,
    CreateClientset w (kubeconfigFile fl) "" = inl cl /\
    snd (ReadFile w (caCertFile fl)) = None /\
    NewWatcher w = inl wt /\
    Watch w wt (fst (filepath.Split (caCertFile fl))) = None /\
    st = {| flags := fl; client := cl; caCertPem := fst (ReadFile w (caCertFile fl));
            err := None; watcher := wt |} /\
    patchCertLoop fl w =
    (None, Some st,
     [CreateClientsetCall (kubeconfigFile fl) ""; ReadFileCall (caCertFile fl);
      NewWatcherCall; WatchCall wt (fst (filepath.Split (caCertFile fl))); GoCall]).
Proof.
  intros H. pose proof (patchCertLoop_cases fl w) as Hc. cbv zeta in Hc.
  destruct (CreateClientset w (kubeconfigFile fl) "") as [cl|e];
    [|rewrite Hc in H; discriminate].
  destruct (snd (ReadFile w (caCertFile fl))) as [e|];
    [rewrite Hc in H; discriminate|].
  destruct (NewWatcher w) as [wt|e]; [|rewrite Hc in H; discriminate].
  destruct (Watch w wt _) as [msg|] eqn:Hw; [rewrite Hc in H; discriminate|].
  rewrite Hc in H. simpl in H. injection H as <-.
  exists cl, wt. repeat split; assumption.
Qed.

(** Start-up succeeds, and starts the goroutine, exactly when the four
    fallible start-up calls all succeed. *)
Lemma patchCertLoop_outcome fl w :
  succeeded (patchCertLoop fl w) =
    (client_created fl w && initial_read_ok fl w &&
     watcher_created w && watch_registered fl w) /\
  started (patchCertLoop fl w) = succeeded (patchCertLoop fl w) /\
  existsb is_go (snd (patchCertLoop fl w)) = started (patchCertLoop fl w).
Proof.
  pose proof (patchCertLoop_cases fl w) as Hc. cbv zeta in Hc.
  unfold client_created, initial_read_ok, watcher_created, watch_registered.
  destruct (CreateClientset w (kubeconfigFile fl) "") as [cl|e];
    [|rewrite Hc; repeat split; reflexivity].
  destruct (snd (ReadFile w (caCertFile fl))) as [e|];
    [rewrite Hc; repeat split; reflexivity|].
  destruct (NewWatcher w) as [wt|e]; [|rewrite Hc; repeat split; reflexivity].
  destruct (Watch w wt _) as [msg|]; rewrite Hc; repeat split; reflexivity.
Qed.

Lemma run_started fl w st schedule :
  snd (fst (patchCertLoop fl w)) = Some st ->
  fst (run fl w schedule) = (None, Some (fst (loop st schedule))) /\
  snd (run fl w schedule) =
    snd (patchCertLoop fl w) ++ NewTickerCall time.Second :: snd (loop st schedule).
Proof.
  intros H. destruct (patchCertLoop_started fl w st H) as (cl & wt & _ & _ & _ & _ & _ & Hp).
  unfold run. rewrite fst_bind, snd_bind, Hp. cbn [fst snd].
  rewrite fst_bind, snd_bind. cbn [fst snd ret]. rewrite app_nil_r.
  unfold goroutine, time_NewTicker, call. rewrite fst_bind, snd_bind.
  split; reflexivity.
Qed.

Lemma run_not_started fl w schedule :
  snd (fst (patchCertLoop fl w)) = None ->
  fst (run fl w schedule) = fst (patchCertLoop fl w) /\
  snd (run fl w schedule) = snd (patchCertLoop fl w).
Proof.
  intros H. unfold run. rewrite fst_bind, snd_bind, H. simpl.
  rewrite app_nil_r. split; reflexivity.
Qed.

Lemma patchCertLoop_no_patch fl w : patch_calls (snd (patchCertLoop fl w)) = [].
Proof.
  pose proof (patchCertLoop_cases fl w) as Hc. cbv zeta in Hc.
  destruct (CreateClientset w (kubeconfigFile fl) "") as [cl|e]; [|rewrite Hc; reflexivity].
  destruct (snd (ReadFile w (caCertFile fl))) as [e|]; [rewrite Hc; reflexivity|].
  destruct (NewWatcher w) as [wt|e]; [|rewrite Hc; reflexivity].
  destruct (Watch w wt _) as [msg|]; rewrite Hc; reflexivity.
Qed.

(** The patch calls of a whole run are those of the loop. *)
Lemma run_patch_calls fl w st schedule :
  snd (fst (patchCertLoop fl w)) = Some st ->
  patch_calls (snd (run fl w schedule)) = patch_calls (snd (loop st schedule)).
Proof.
  intros H. destruct (run_started fl w st schedule H) as (_ & ->).
  rewrite patch_calls_app, patchCertLoop_no_patch. reflexivity.
Qed.

(** ** Bursts of notifications and runs of ticks *)

Lemma burst_no_patch st (burst : list (@World Clientset Watcher * FileEvent)) :
  patch_calls (snd (loop st (burst_of_events burst))) = [].
Proof.
  revert st. induction burst as [|[w fe] burst IH]; intros st; [reflexivity|].
  cbn [burst_of_events map fst snd]. fold (burst_of_events burst).
  rewrite loop_cons, snd_bind, patch_calls_app, IH, event_trace.
  destruct (snd (ReadFile w _)); reflexivity.
Qed.

Lemma burst_read_paths st (burst : list (@World Clientset Watcher * FileEvent)) :
  read_paths (snd (loop st (burst_of_events burst))) =
  repeat (caCertFile (flags st)) (List.length burst).
Proof.
  revert st. induction burst as [|[w fe] burst IH]; intros st; [reflexivity|].
  cbn [burst_of_events map fst snd]. fold (burst_of_events burst).
  rewrite loop_cons, snd_bind, read_paths_app, IH, event_trace.
  destruct (select_iteration_frame st w (watcher_Event fe)) as (-> & _).
  destruct (snd (ReadFile w _)); reflexivity.
Qed.

Lemma ticks_keep_cache st (ws : list (@World Clientset Watcher)) :
  caCertPem (fst (loop st (ticks_in ws))) = caCertPem st.
Proof.
  rewrite loop_cache. induction ws as [|w ws IH]; [reflexivity|exact IH].
Qed.

Lemma ticks_patch_calls st (ws : list (@World Clientset Watcher)) :
  patch_calls (snd (loop st (ticks_in ws))) = repeat (patch_of st) (List.length ws).
Proof.
  revert st. induction ws as [|w ws IH]; intros st; [reflexivity|].
  cbn [ticks_in map]. fold (ticks_in ws).
  rewrite loop_cons, snd_bind, patch_calls_app, tick_patch_calls, IH, tick_state.
  reflexivity.
Qed.

(** One patch call per tick, whatever the calls answer. *)
Lemma patch_calls_count st schedule :
  List.length (patch_calls (snd (loop st schedule))) = ticks schedule.
Proof.
  revert st. induction schedule as [|[w wk] rest IH]; intros st; [reflexivity|].
  rewrite loop_cons, snd_bind, patch_calls_app, length_app, IH.
  destruct wk as [|fe].
  - rewrite tick_patch_calls. reflexivity.
  - rewrite event_trace. destruct (snd (ReadFile w _)); reflexivity.
Qed.

Lemma ticks_forget st (ws : list (@World Clientset Watcher)) rest :
  snd (loop (fst (loop st (ticks_in ws))) rest) = snd (loop st rest).
Proof.
  revert st. induction ws as [|w ws IH]; intros st; [reflexivity|].
  cbn [ticks_in map]. fold (ticks_in ws).
  rewrite loop_cons, fst_bind, IH, tick_state.
  apply loop_err_irrelevant.
Qed.

Lemma failing_ticks_logged st (ws : list (@World Clientset Watcher)) :
  Forall (fun w' => PatchMutatingWebhookConfig w' (client st)
                      (webhookConfigName (flags st)) (webhookName (flags st))
                      (caCertPem st) <> None) ws ->
  List.length (logged (snd (loop st (ticks_in ws)))) = List.length ws.
Proof.
  intros H. revert st H. induction ws as [|w ws IH]; intros st H; [reflexivity|].
  inversion H as [|? ? Hw Hws]; subst.
  cbn [ticks_in map]. fold (ticks_in ws).
  rewrite loop_cons, snd_bind, logged_app, length_app, tick_state, tick_trace.
  rewrite (IH (set_err st _) Hws).
  destruct (PatchMutatingWebhookConfig w _ _ _ _); [reflexivity|contradiction].
Qed.

Lemma loop_read_paths st schedule :
  Forall (eq (caCertFile (flags st))) (read_paths (snd (loop st schedule))).
Proof.
  revert st. induction schedule as [|[w wk] rest IH]; intros st; [constructor|].
  rewrite loop_cons, snd_bind, read_paths_app. apply Forall_app. split.
  - destruct wk as [|fe].
    + rewrite tick_trace. destruct (PatchMutatingWebhookConfig w _ _ _ _); constructor.
    + rewrite event_trace.
      destruct (snd (ReadFile w _)); repeat constructor.
  - destruct (select_iteration_frame st w wk) as (Hf & _). rewrite <- Hf. apply IH.
Qed.

Lemma patch_targets_app ta tb :
  patch_targets (ta ++ tb) = patch_targets ta ++ patch_targets tb.
Proof.
  induction ta as [|c ta IH]; [reflexivity|].
  destruct c; simpl; rewrite IH; reflexivity.
Qed.

Lemma loop_patch_targets st schedule :
  Forall (eq (webhookConfigName (flags st), webhookName (flags st)))
         (patch_targets (snd (loop st schedule))).
Proof.
  revert st. induction schedule as [|[w wk] rest IH]; intros st; [constructor|].
  rewrite loop_cons, snd_bind, patch_targets_app. apply Forall_app. split.
  - destruct wk as [|fe].
    + rewrite tick_trace.
      destruct (PatchMutatingWebhookConfig w _ _ _ _); repeat constructor.
    + rewrite event_trace. destruct (snd (ReadFile w _)); constructor.
  - destruct (select_iteration_frame st w wk) as (Hf & _). rewrite <- Hf. apply IH.
Qed.

Lemma loop_ticker_intervals st schedule : ticker_intervals (snd (loop st schedule)) = [].
Proof.
  revert st. induction schedule as [|[w wk] rest IH]; intros st; [reflexivity|].
  rewrite loop_cons, snd_bind, ticker_intervals_app, IH, app_nil_r.
  destruct wk as [|fe].
  - rewrite tick_trace. destruct (PatchMutatingWebhookConfig w _ _ _ _); reflexivity.
  - rewrite event_trace. destruct (snd (ReadFile w _)); reflexivity.
Qed.

Lemma patchCertLoop_returned_error fl w :
  returned_error (patchCertLoop fl w) = first_startup_failure fl w.
Proof.
  pose proof (patchCertLoop_cases fl w) as Hc. cbv zeta in Hc.
  unfold first_startup_failure.
  destruct (CreateClientset w (kubeconfigFile fl) "") as [cl|e]; [|rewrite Hc; reflexivity].
  destruct (snd (ReadFile w (caCertFile fl))) as [e|]; [rewrite Hc; reflexivity|].
  destruct (NewWatcher w) as [wt|e]; [|rewrite Hc; reflexivity].
  destruct (Watch w wt _) as [msg|]; rewrite Hc; reflexivity.
Qed.

Lemma started_inv fl w :
  started (patchCertLoop fl w) = true ->
  exists st, snd (fst (patchCertLoop fl w)) = Some st.
Proof.
  unfold started. destruct (snd (fst (patchCertLoop fl w))) as [st|]; [|discriminate].
  intros _. exists st. reflexivity.
Qed.

Lemma not_started_inv fl w :
  started (patchCertLoop fl w) = false -> snd (fst (patchCertLoop fl w)) = None.
Proof.
  unfold started. destruct (snd (fst (patchCertLoop fl w))); [discriminate|reflexivity].
Qed.

Lemma patchCertLoop_ticker_intervals fl w :
  ticker_intervals (snd (patchCertLoop fl w)) = [].
Proof.
  pose proof (patchCertLoop_cases fl w) as Hc. cbv zeta in Hc.
  destruct (CreateClientset w (kubeconfigFile fl) "") as [cl|e]; [|rewrite Hc; reflexivity].
  destruct (snd (ReadFile w (caCertFile fl))) as [e|]; [rewrite Hc; reflexivity|].
  destruct (NewWatcher w) as [wt|e]; [|rewrite Hc; reflexivity].
  destruct (Watch w wt _) as [m|]; rewrite Hc; reflexivity.
Qed.

Lemma patchCertLoop_read_paths fl w :
  Forall (eq (caCertFile fl)) (read_paths (snd (patchCertLoop fl w))).
Proof.
  pose proof (patchCertLoop_cases fl w) as Hc. cbv zeta in Hc.
  destruct (CreateClientset w (kubeconfigFile fl) "") as [cl|e];
    [|rewrite Hc; constructor].
  destruct (snd (ReadFile w (caCertFile fl))) as [e|];
    [rewrite Hc; repeat constructor|].
  destruct (NewWatcher w) as [wt|e]; [|rewrite Hc; repeat constructor].
  destruct (Watch w wt _) as [m|]; rewrite Hc; repeat constructor.
Qed.

Lemma patchCertLoop_watched_paths fl w :
  watched_paths (snd (patchCertLoop fl w)) =
  if client_created fl w && initial_read_ok fl w && watcher_created w
  then [fst (filepath.Split (caCertFile fl))] else [].
Proof.
  pose proof (patchCertLoop_cases fl w) as Hc. cbv zeta in Hc.
  unfold client_created, initial_read_ok, watcher_created.
  destruct (CreateClientset w (kubeconfigFile fl) "") as [cl|e]; [|rewrite Hc; reflexivity].
  destruct (snd (ReadFile w (caCertFile fl))) as [e|]; [rewrite Hc; reflexivity|].
  destruct (NewWatcher w) as [wt|e]; [|rewrite Hc; reflexivity].
  destruct (Watch w wt _) as [m|]; rewrite Hc; reflexivity.
Qed.

(** The ticker is armed once, with one second, by the goroutine. *)
Lemma run_ticker_intervals fl w schedule :
  ticker_intervals (snd (run fl w schedule)) =
  if started (patchCertLoop fl w) then [time.Second] else [].
Proof.
  destruct (started (patchCertLoop fl w)) eqn:E.
  - destruct (started_inv fl w E) as (st & Hsome).
    destruct (run_started fl w st schedule Hsome) as (_ & ->).
    rewrite ticker_intervals_app, patchCertLoop_ticker_intervals.
    cbn [ticker_intervals app]. rewrite loop_ticker_intervals. reflexivity.
  - destruct (run_not_started fl w schedule (not_started_inv fl w E)) as (_ & ->).
    apply patchCertLoop_ticker_intervals.
Qed.

(** ** The claims *)

(** C1.  At every timer tick the bundle handed to the patch call is the
    cached bundle, and the cache is then the content of the most recent
    successful read of the certificate file among the notifications
    handled so far, or the content of the start-up read if none
    succeeded.  The bytes are passed on as they were read. *)
Theorem tick_patches_cached_bundle fl w0 st0 pre w :
  snd (fst (patchCertLoop fl w0)) = Some st0 ->
  let cached :=
    last_successful_read (caCertFile fl) (fst (ReadFile w0 (caCertFile fl))) pre in
  let patch :=
    PatchMutatingWebhookConfigCall (client st0)
      (webhookConfigName fl) (webhookName fl) cached in
  caCertPem (fst (loop st0 pre)) = cached /\
  patch_calls (snd (select_iteration (fst (loop st0 pre)) w tickerC)) = [patch] /\
  patch_calls (snd (run fl w0 (pre ++ [(w, tickerC)]))) =
    patch_calls (snd (run fl w0 pre)) ++ [patch].
Proof.
  intros H. cbv zeta.
  destruct (patchCertLoop_started fl w0 st0 H) as (cl & wt & _ & _ & _ & _ & Hst & _).
  assert (Hc : caCertPem (fst (loop st0 pre)) =
               last_successful_read (caCertFile fl)
                 (fst (ReadFile w0 (caCertFile fl))) pre).
  { rewrite loop_cache, Hst. reflexivity. }
  destruct (loop_frame st0 pre) as (Hf & Hcl & _).
  assert (Hp : patch_calls (snd (select_iteration (fst (loop st0 pre)) w tickerC)) =
               [PatchMutatingWebhookConfigCall (client st0) (webhookConfigName fl)
                  (webhookName fl)
                  (last_successful_read (caCertFile fl)
                     (fst (ReadFile w0 (caCertFile fl))) pre)]).
  { rewrite tick_patch_calls. unfold patch_of. rewrite Hf, Hcl, Hc, Hst. reflexivity. }
  repeat split; [exact Hc|exact Hp|].
  rewrite !(run_patch_calls fl w0 st0) by exact H.
  rewrite loop_app_trace, patch_calls_app. f_equal.
  rewrite loop_cons, snd_bind. cbn [loop ret snd]. rewrite app_nil_r. exact Hp.
Qed.

(** C2.  When the read triggered by a notification fails, the failure is
    logged and the closure, hence the cached bundle, is what it was; the
    patches of everything that follows are those that would follow
    without the notification. *)
Theorem failed_refresh_keeps_cache st w fe msg rest :
  snd (ReadFile w (caCertFile (flags st))) = Some msg ->
  fst (select_iteration st w (watcher_Event fe)) = st /\
  caCertPem (fst (select_iteration st w (watcher_Event fe))) = caCertPem st /\
  snd (select_iteration st w (watcher_Event fe)) =
    [ReadFileCall (caCertFile (flags st));
     ErrorfCall ("CA bundle file read error: " ++ msg)%string] /\
  fst (loop st ((w, watcher_Event fe) :: rest)) = fst (loop st rest) /\
  patch_calls (snd (loop st ((w, watcher_Event fe) :: rest))) =
    patch_calls (snd (loop st rest)).
Proof.
  intros H.
  assert (Hs : fst (select_iteration st w (watcher_Event fe)) = st).
  { rewrite event_state, H. reflexivity. }
  assert (Ht : snd (select_iteration st w (watcher_Event fe)) =
               [ReadFileCall (caCertFile (flags st));
                ErrorfCall ("CA bundle file read error: " ++ msg)%string]).
  { rewrite event_trace, H. reflexivity. }
  repeat split.
  - exact Hs.
  - rewrite Hs. reflexivity.
  - exact Ht.
  - rewrite loop_cons, fst_bind, Hs. reflexivity.
  - rewrite loop_cons, snd_bind, Hs, Ht, patch_calls_app. reflexivity.
Qed.

(** C3.  A failing patch call is logged and changes nothing the loop
    acts on: after K ticks whose patch fails, the certificate, the flags
    and the handles are as before, K messages were logged, the next tick
    issues the same patch again, and the calls of whatever follows are
    those of a loop that never saw a failure.  Every schedule has one
    patch call per tick. *)
Theorem patch_failure_never_stops_loop st (ws : list (@World Clientset Watcher)) w rest :
  Forall (fun w' => PatchMutatingWebhookConfig w' (client st)
                      (webhookConfigName (flags st)) (webhookName (flags st))
                      (caCertPem st) <> None) ws ->
  flags (fst (loop st (ticks_in ws))) = flags st /\
  client (fst (loop st (ticks_in ws))) = client st /\
  caCertPem (fst (loop st (ticks_in ws))) = caCertPem st /\
  watcher (fst (loop st (ticks_in ws))) = watcher st /\
  List.length (logged (snd (loop st (ticks_in ws)))) = List.length ws /\
  patch_calls (snd (loop st (ticks_in ws ++ [(w, tickerC)]))) =
    repeat (patch_of st) (S (List.length ws)) /\
  snd (loop (fst (loop st (ticks_in ws))) rest) = snd (loop st rest) /\
  List.length (patch_calls (snd (loop st (ticks_in ws ++ rest)))) =
    List.length ws + ticks rest.
Proof.
  intros H.
  destruct (loop_frame st (ticks_in ws)) as (Hf & Hc & Hw).
  repeat split; try assumption.
  - apply ticks_keep_cache.
  - apply failing_ticks_logged, H.
  - rewrite loop_app_trace, patch_calls_app, ticks_patch_calls, ticks_forget.
    rewrite loop_cons, snd_bind. cbn [loop ret snd]. rewrite app_nil_r.
    rewrite tick_patch_calls.
    change [patch_of st] with (repeat (patch_of st) 1).
    rewrite <- repeat_app. f_equal. lia.
  - apply ticks_forget.
  - rewrite loop_app_trace, patch_calls_app, length_app, ticks_patch_calls,
      repeat_length, patch_calls_count. reflexivity.
Qed.

(** C4, amended.  Starting fails exactly when one of the four fallible
    start-up calls fails: building the Kubernetes client, the first read
    of the certificate file, creating the watcher, or registering the
    watch on the directory.  The error returned is that of the first call
    that failed (for the watch, wrapped in a message), and the goroutine
    is started, and its ticker armed, exactly when none failed. *)
Theorem startup_fails_iff_a_step_fails fl w schedule :
  negb (succeeded (patchCertLoop fl w)) =
    (negb (client_created fl w) || negb (initial_read_ok fl w) ||
     negb (watcher_created w) || negb (watch_registered fl w)) /\
  returned_error (patchCertLoop fl w) = first_startup_failure fl w /\
  started (patchCertLoop fl w) = succeeded (patchCertLoop fl w) /\
  existsb is_go (snd (run fl w schedule)) = succeeded (patchCertLoop fl w) /\
  ticker_intervals (snd (run fl w schedule)) =
    (if succeeded (patchCertLoop fl w) then [time.Second] else []).
Proof.
  destruct (patchCertLoop_outcome fl w) as (Hs & Hst & Hgo).
  split; [|split; [|split; [|split]]].
  - rewrite Hs.
    destruct (client_created fl w), (initial_read_ok fl w), (watcher_created w),
      (watch_registered fl w); reflexivity.
  - apply patchCertLoop_returned_error.
  - exact Hst.
  - destruct (started (patchCertLoop fl w)) eqn:E.
    + destruct (started_inv fl w E) as (st & Hsome).
      destruct (run_started fl w st schedule Hsome) as (_ & ->).
      rewrite existsb_app, Hgo, <- Hst. reflexivity.
    + destruct (run_not_started fl w schedule (not_started_inv fl w E)) as (_ & ->).
      rewrite Hgo, <- Hst. reflexivity.
  - rewrite <- Hst. apply run_ticker_intervals.
Qed.

(** C5.  Handling a file-system notification is one read of the
    configured certificate file, with a log line if it fails, and no
    patch call; patch calls are issued by ticks only, one per tick.  A
    burst of N notifications followed by a tick issues exactly one patch
    call, carrying the last successfully read content. *)
Theorem notifications_coalesce st w fe
    (burst : list (@World Clientset Watcher * FileEvent)) w1 schedule :
  (exists msgs,
     snd (select_iteration st w (watcher_Event fe)) =
     ReadFileCall (caCertFile (flags st)) :: map ErrorfCall msgs) /\
  patch_calls (snd (select_iteration st w (watcher_Event fe))) = [] /\
  patch_calls (snd (loop st (burst_of_events burst))) = [] /\
  read_paths (snd (loop st (burst_of_events burst))) =
    repeat (caCertFile (flags st)) (List.length burst) /\
  patch_calls (snd (loop st (burst_of_events burst ++ [(w1, tickerC)]))) =
    [PatchMutatingWebhookConfigCall (client st)
       (webhookConfigName (flags st)) (webhookName (flags st))
       (last_successful_read (caCertFile (flags st)) (caCertPem st)
          (burst_of_events burst))] /\
  List.length (patch_calls (snd (loop st schedule))) = ticks schedule.
Proof.
  split; [|split; [|split; [|split; [|split]]]].
  - rewrite event_trace. destruct (snd (ReadFile w _)) as [m|].
    + exists [("CA bundle file read error: " ++ m)%string]. reflexivity.
    + exists []. reflexivity.
  - rewrite event_trace. destruct (snd (ReadFile w _)); reflexivity.
  - apply burst_no_patch.
  - apply burst_read_paths.
  - rewrite loop_app_trace, patch_calls_app, burst_no_patch.
    rewrite loop_cons, snd_bind. cbn [loop ret snd]. rewrite app_nil_r.
    rewrite tick_patch_calls. unfold patch_of.
    destruct (loop_frame st (burst_of_events burst)) as (-> & -> & _).
    rewrite loop_cache. reflexivity.
  - apply patch_calls_count.
Qed.

(** C6, amended.  The certificate file path, the name of the
    configuration resource and the name of the webhook entry are
    configuration inputs: every read and every patch of a run uses the
    values of the flags, and the loop leaves the flags as they were.  The
    reconciliation interval is not an input: the ticker is armed once,
    with the constant of one second. *)
Theorem interval_fixed_one_second fl w schedule :
  ticker_intervals (snd (run fl w schedule)) =
    (if started (patchCertLoop fl w) then [time.Second] else []) /\
  time.Second = 1000000000%Z /\
  Forall (eq (caCertFile fl)) (read_paths (snd (run fl w schedule))) /\
  Forall (eq (webhookConfigName fl, webhookName fl))
         (patch_targets (snd (run fl w schedule))) /\
  option_map flags (snd (fst (run fl w schedule))) =
    (if started (patchCertLoop fl w) then Some fl else None).
Proof.
  split; [apply run_ticker_intervals|]. split; [reflexivity|].
  destruct (started (patchCertLoop fl w)) eqn:E.
  - destruct (started_inv fl w E) as (st & Hsome).
    destruct (run_started fl w st schedule Hsome) as (-> & ->).
    destruct (patchCertLoop_started fl w st Hsome) as (cl & wt & _ & _ & _ & _ & Hst & Hp).
    assert (Hfl : flags st = fl) by (rewrite Hst; reflexivity).
    repeat split.
    + rewrite read_paths_app. apply Forall_app. split.
      * apply patchCertLoop_read_paths.
      * cbn [read_paths]. rewrite <- Hfl. apply loop_read_paths.
    + rewrite patch_targets_app, Hp. cbn [snd patch_targets app].
      rewrite <- Hfl. apply loop_patch_targets.
    + cbn [snd option_map]. destruct (loop_frame st schedule) as (-> & _).
      rewrite Hfl. reflexivity.
  - pose proof (not_started_inv fl w E) as Hnone.
    destruct (run_not_started fl w schedule Hnone) as (-> & ->).
    repeat split.
    + apply patchCertLoop_read_paths.
    + pose proof (patchCertLoop_cases fl w) as Hc. cbv zeta in Hc.
      destruct (CreateClientset w (kubeconfigFile fl) "") as [cl|e];
        [|rewrite Hc; constructor].
      destruct (snd (ReadFile w (caCertFile fl))) as [e|]; [rewrite Hc; constructor|].
      destruct (NewWatcher w) as [wt|e]; [|rewrite Hc; constructor].
      destruct (Watch w wt _) as [m|]; rewrite Hc; constructor.
    + rewrite Hnone. reflexivity.
Qed.

(** C7, amended.  After a successful start the cached bundle is the byte
    content the first read returned, be it empty, and that read returned
    no error.  Start-up never looks at the content: a world that answers
    every call with the same handles and errors, and reads any other
    bytes, starts the loop as well, with those bytes cached. *)
Theorem cache_is_initial_read fl w w' st :
  snd (fst (patchCertLoop fl w)) = Some st ->
  CreateClientset w' = CreateClientset w ->
  (forall p, snd (ReadFile w' p) = snd (ReadFile w p)) ->
  NewWatcher w' = NewWatcher w ->
  Watch w' = Watch w ->
  caCertPem st = fst (ReadFile w (caCertFile fl)) /\
  snd (ReadFile w (caCertFile fl)) = None /\
  returned_error (patchCertLoop fl w) = None /\
  returned_error (patchCertLoop fl w') = None /\
  option_map caCertPem (snd (fst (patchCertLoop fl w'))) =
    Some (fst (ReadFile w' (caCertFile fl))).
Proof.
  intros H Hc Hr Hn Hw.
  destruct (patchCertLoop_started fl w st H) as (cl & wt & H1 & H2 & H3 & H4 & Hst & Hp).
  pose proof (patchCertLoop_cases fl w') as Hc'. cbv zeta in Hc'.
  rewrite Hc, H1, Hr, H2, Hn, H3, Hw, H4 in Hc'.
  repeat split.
  - rewrite Hst. reflexivity.
  - exact H2.
  - rewrite Hp. reflexivity.
  - rewrite Hc'. reflexivity.
  - rewrite Hc'. reflexivity.
Qed.

(** C10.  A nil error from [patchCertLoop] means exactly that the four
    start-up calls succeeded.  Up to the return no patch call was made and
    no ticker armed; the goroutine then arms the ticker with one second,
    issues no patch call for any number of notifications, and issues its
    first patch call at the first tick. *)
Theorem no_patch_before_first_tick fl w0
    (burst : list (@World Clientset Watcher * FileEvent)) w1 :
  returned_error (patchCertLoop fl w0) = None ->
  (client_created fl w0 && initial_read_ok fl w0 &&
   watcher_created w0 && watch_registered fl w0) = true /\
  patch_calls (snd (patchCertLoop fl w0)) = [] /\
  ticker_intervals (snd (patchCertLoop fl w0)) = [] /\
  ticker_intervals (snd (run fl w0 (burst_of_events burst))) = [time.Second] /\
  patch_calls (snd (run fl w0 (burst_of_events burst))) = [] /\
  exists cl,
    CreateClientset w0 (kubeconfigFile fl) "" = inl cl /\
    patch_calls (snd (run fl w0 (burst_of_events burst ++ [(w1, tickerC)]))) =
      [PatchMutatingWebhookConfigCall cl (webhookConfigName fl) (webhookName fl)
         (last_successful_read (caCertFile fl) (fst (ReadFile w0 (caCertFile fl)))
            (burst_of_events burst))].
Proof.
  intros Hnil.
  destruct (patchCertLoop_outcome fl w0) as (Hs & Hst & _).
  assert (Hsucc : succeeded (patchCertLoop fl w0) = true)
    by (unfold succeeded; rewrite Hnil; reflexivity).
  assert (E : started (patchCertLoop fl w0) = true) by (rewrite Hst; exact Hsucc).
  destruct (started_inv fl w0 E) as (st & Hsome).
  destruct (patchCertLoop_started fl w0 st Hsome)
    as (cl & wt & H1 & _ & _ & _ & Hstate & _).
  split; [rewrite <- Hs; exact Hsucc|].
  split; [apply patchCertLoop_no_patch|].
  split; [apply patchCertLoop_ticker_intervals|].
  split; [rewrite run_ticker_intervals, E; reflexivity|].
  split; [rewrite (run_patch_calls fl w0 st) by exact Hsome; apply burst_no_patch|].
  exists cl. split; [exact H1|].
  rewrite (run_patch_calls fl w0 st) by exact Hsome.
  rewrite loop_app_trace, patch_calls_app, burst_no_patch.
  rewrite loop_cons, snd_bind. cbn [loop ret snd]. rewrite app_nil_r.
  rewrite tick_patch_calls. unfold patch_of.
  destruct (loop_frame st (burst_of_events burst)) as (-> & -> & _).
  rewrite loop_cache, Hstate. reflexivity.
Qed.

End Properties.

(** * The claims at concrete inputs *)

Lemma tick_patches_cached_bundle_witness :
  snd (fst (patchCertLoop default_flags (world_with CERT_A))) = Some (closure_with CERT_A) /\
  patch_calls (snd (run default_flags (world_with CERT_A)
                      (rotation ++ [(world_with CERT_B, tickerC)]))) =
  patch_calls (snd (run default_flags (world_with CERT_A) rotation)) ++
  [PatchMutatingWebhookConfigCall tt "istio-sidecar-injector"
     "sidecar-injector.istio.io" CERT_B].
Proof.
  split; [reflexivity|].
  pose proof (tick_patches_cached_bundle default_flags (world_with CERT_A)
                (closure_with CERT_A) rotation (world_with CERT_B) eq_refl) as H.
  cbv zeta in H. destruct H as (_ & _ & H). exact H.
Defined.

Lemma failed_refresh_keeps_cache_witness :
  snd (ReadFile world_missing_file (caCertFile (flags (closure_with CERT_A)))) =
    Some "no such file or directory" /\
  fst (select_iteration (closure_with CERT_A) world_missing_file
         (watcher_Event (ev "/etc/istio/certs/root-cert.pem"))) = closure_with CERT_A.
Proof.
  split; [reflexivity|].
  exact (proj1 (failed_refresh_keeps_cache (closure_with CERT_A) world_missing_file
                  (ev "/etc/istio/certs/root-cert.pem") "no such file or directory"
                  [(world_with CERT_A, tickerC)] eq_refl)).
Defined.

Lemma patch_failure_never_stops_loop_witness :
  Forall (fun w' : @World unit unit =>
            PatchMutatingWebhookConfig w' tt "istio-sidecar-injector"
              "sidecar-injector.istio.io" CERT_A <> None)
         [world_patch_fails CERT_A; world_patch_fails CERT_A; world_patch_fails CERT_A] /\
  patch_calls
    (snd (loop (closure_with CERT_A)
            (ticks_in [world_patch_fails CERT_A; world_patch_fails CERT_A;
                       world_patch_fails CERT_A]
             ++ [(world_patch_fails CERT_A, tickerC)]))) =
  repeat (patch_of (closure_with CERT_A)) 4.
Proof.
  assert (H : Forall (fun w' : @World unit unit =>
                        PatchMutatingWebhookConfig w' tt "istio-sidecar-injector"
                          "sidecar-injector.istio.io" CERT_A <> None)
                [world_patch_fails CERT_A; world_patch_fails CERT_A;
                 world_patch_fails CERT_A])
    by (repeat constructor; discriminate).
  split; [exact H|].
  pose proof (patch_failure_never_stops_loop (closure_with CERT_A)
                [world_patch_fails CERT_A; world_patch_fails CERT_A;
                 world_patch_fails CERT_A]
                (world_patch_fails CERT_A) [] H) as (_ & _ & _ & _ & _ & Hp & _).
  exact Hp.
Defined.

(** C4, as stated, fails: with no Kubernetes client to be had, starting
    fails and the loop is not started, although the certificate file is
    readable and the watch could be registered. *)
Lemma startup_failure_without_read_or_watch_failure :
  ~ ((returned_error (patchCertLoop default_flags world_no_client) <> None /\
      started (patchCertLoop default_flags world_no_client) = false) <->
     (initial_read_ok default_flags world_no_client = false \/
      watch_registered default_flags world_no_client = false)).
Proof.
  intros [Hfails _].
  assert (H : initial_read_ok default_flags world_no_client = false \/
              watch_registered default_flags world_no_client = false).
  { apply Hfails. split; [discriminate|reflexivity]. }
  destruct H as [H|H]; vm_compute in H; discriminate.
Qed.

(** C6, as stated, fails: with every flag set, the one duration among
    them to five seconds, the ticker is armed with one second; and no
    flags, world or schedule arm it with anything else. *)
Lemma interval_not_configurable :
  healthCheckInterval custom_flags = 5000000000%Z /\
  ticker_intervals (snd (run custom_flags (world_with CERT_A) rotation)) =
    [1000000000%Z] /\
  ~ (exists (fl : Flags) (w : @World unit unit) schedule d,
       In d (ticker_intervals (snd (run fl w schedule))) /\ d <> time.Second).
Proof.
  split; [reflexivity|]. split; [reflexivity|].
  intros (fl & w & schedule & d & Hin & Hd).
  rewrite run_ticker_intervals in Hin.
  destruct (started (patchCertLoop fl w)); simpl in Hin; [|contradiction].
  destruct Hin as [Heq|[]]. apply Hd. symmetry. exact Heq.
Qed.

(** C7, as stated, fails: an empty certificate file is read without
    error, starting succeeds, and the cached bundle is empty. *)
Lemma empty_bundle_accepted :
  returned_error (patchCertLoop default_flags (world_with [])) = None /\
  option_map caCertPem (snd (fst (patchCertLoop default_flags (world_with [])))) =
    Some [] /\
  patch_calls (snd (run default_flags (world_with []) [(world_with [], tickerC)])) =
    [PatchMutatingWebhookConfigCall tt "istio-sidecar-injector"
       "sidecar-injector.istio.io" []].
Proof. repeat split; reflexivity. Qed.

Lemma cache_is_initial_read_witness :
  snd (fst (patchCertLoop default_flags (world_with CERT_A))) = Some (closure_with CERT_A) /\
  CreateClientset (world_with []) = CreateClientset (world_with CERT_A) /\
  (forall p, snd (ReadFile (world_with []) p) = snd (ReadFile (world_with CERT_A) p)) /\
  NewWatcher (world_with []) = NewWatcher (world_with CERT_A) /\
  Watch (world_with []) = Watch (world_with CERT_A) /\
  option_map caCertPem (snd (fst (patchCertLoop default_flags (world_with [])))) = Some [].
Proof.
  split; [reflexivity|]. split; [reflexivity|]. split; [reflexivity|].
  split; [reflexivity|]. split; [reflexivity|].
  exact (proj2 (proj2 (proj2 (proj2
    (cache_is_initial_read default_flags (world_with CERT_A) (world_with [])
       (closure_with CERT_A) eq_refl eq_refl (fun _ => eq_refl) eq_refl eq_refl))))).
Defined.

(** C8.  The code misses the containing directory of a certificate
    file given by its bare name.  For [root-cert.pem], [filepath.Split]
    returns the empty directory part, so the watch is asked for on the
    empty path and not on the directory that holds the file; where the
    empty path cannot be watched, start-up fails with "could not watch"
    although the file is read without error, the goroutine is never
    started and no notification ever refreshes the bundle.  The same
    file named [./root-cert.pem] is watched through its directory and
    the loop starts and refreshes. *)
Theorem bare_file_name_misses_containing_directory :
  filepath.Split (caCertFile bare_flags) = (EmptyString, "root-cert.pem"%string) /\
  snd (ReadFile (world_no_empty_watch CERT_A) (caCertFile bare_flags)) = None /\
  watched_paths (snd (patchCertLoop bare_flags (world_no_empty_watch CERT_A))) =
    [EmptyString] /\
  fst (patchCertLoop bare_flags (world_no_empty_watch CERT_A)) =
    (Some "could not watch root-cert.pem: no such file or directory"%string, None) /\
  snd (run bare_flags (world_no_empty_watch CERT_A) (burst_of_events three_events)) =
    [CreateClientsetCall EmptyString EmptyString; ReadFileCall "root-cert.pem";
     NewWatcherCall; WatchCall tt EmptyString] /\
  watched_paths (snd (patchCertLoop dot_flags (world_no_empty_watch CERT_A))) =
    ["./"%string] /\
  returned_error (patchCertLoop dot_flags (world_no_empty_watch CERT_A)) = None /\
  read_paths (snd (run dot_flags (world_no_empty_watch CERT_A)
                     (burst_of_events three_events))) =
    ["./root-cert.pem"%string; "./root-cert.pem"%string;
     "./root-cert.pem"%string; "./root-cert.pem"%string].
Proof. repeat split; reflexivity. Qed.

Lemma no_patch_before_first_tick_witness :
  returned_error (patchCertLoop default_flags (world_with CERT_A)) = None /\
  patch_calls (snd (run default_flags (world_with CERT_A)
                      (burst_of_events three_events))) = [] /\
  ticker_intervals (snd (run default_flags (world_with CERT_A)
                           (burst_of_events three_events))) = [time.Second].
Proof.
  pose proof (no_patch_before_first_tick default_flags (world_with CERT_A)
                three_events (world_with CERT_B) eq_refl)
    as (_ & _ & _ & Ht & Hp & _).
  split; [reflexivity|]. split; [exact Hp|exact Ht].
Defined.

(** * Further properties of the code *)

(** ** [filepath.Split] decides the watched directory *)

Module SplitMore.
Import filepath.

Lemma length_append (a b : string) :
  String.length (a ++ b)%string = String.length a + String.length b.
Proof. induction a as [|c a IH]; simpl; [reflexivity|rewrite IH; reflexivity]. Qed.

Lemma substring_append_prefix (a b : string) :
  substring 0 (String.length a) (a ++ b)%string = a.
Proof.
  induction a as [|c a IH]; simpl.
  - destruct b; reflexivity.
  - rewrite IH. reflexivity.
Qed.

Lemma substring_whole (b : string) : substring 0 (String.length b) b = b.
Proof. induction b as [|c b IH]; simpl; [reflexivity|rewrite IH; reflexivity]. Qed.

Lemma substring_append_suffix (a b : string) :
  substring (String.length a) (String.length b) (a ++ b)%string = b.
Proof.
  induction a as [|c a IH]; simpl; [apply substring_whole|exact IH].
Qed.

(** Scanning back from anywhere in the file part stops at the end of the
    directory part. *)
Lemma scan_back_append (d f : string) (k : nat) :
  ends_in_separator d -> no_separator f -> k <= String.length f ->
  scan_back (d ++ f)%string (String.length d + k) = String.length d.
Proof.
  intros Hd Hf. induction k as [|k IH]; intros Hk.
  - rewrite Nat.add_0_r. destruct Hd as [->|(j & Hj & Hsep)]; [reflexivity|].
    rewrite Hj. simpl. unfold byte_at in *.
    rewrite <- append_correct1 by lia. rewrite Hsep. reflexivity.
  - rewrite Nat.add_succ_r. simpl. unfold byte_at.
    rewrite (Nat.add_comm (String.length d) k), <- append_correct2.
    pose proof (Hf k Hk) as Hnot. unfold byte_at in Hnot. rewrite Hnot.
    rewrite Nat.add_comm. apply IH. lia.
Qed.

End SplitMore.

Section MoreProperties.

Context {Clientset Watcher : Type}.

Implicit Types (st : @Closure Clientset Watcher) (w : @World Clientset Watcher)
  (fl : Flags) (wk : Wakeup)
  (schedule pre mid rest : list (@World Clientset Watcher * Wakeup))
  (t ta tb : list (@Call Clientset Watcher)).

Lemma patched_bundles_app ta tb :
  patched_bundles (ta ++ tb) = patched_bundles ta ++ patched_bundles tb.
Proof.
  induction ta as [|c ta IH]; [reflexivity|].
  destruct c; simpl; rewrite IH; reflexivity.
Qed.

Lemma tick_patched_bundles st w :
  patched_bundles (snd (select_iteration st w tickerC)) = [caCertPem st].
Proof.
  rewrite tick_trace. unfold patch_of. simpl.
  destruct (PatchMutatingWebhookConfig w _ _ _ _); reflexivity.
Qed.

Lemma event_patched_bundles st w fe :
  patched_bundles (snd (select_iteration st w (watcher_Event fe))) = [].
Proof. rewrite event_trace. destruct (snd (ReadFile w _)); reflexivity. Qed.

Lemma patchCertLoop_patched_bundles fl w :
  patched_bundles (snd (patchCertLoop fl w)) = [].
Proof.
  pose proof (patchCertLoop_cases fl w) as Hc. cbv zeta in Hc.
  destruct (CreateClientset w (kubeconfigFile fl) "") as [cl|e]; [|rewrite Hc; reflexivity].
  destruct (snd (ReadFile w (caCertFile fl))) as [e|]; [rewrite Hc; reflexivity|].
  destruct (NewWatcher w) as [wt|e]; [|rewrite Hc; reflexivity].
  destruct (Watch w wt _) as [m|]; rewrite Hc; reflexivity.
Qed.

Lemma loop_patched_from_reads st schedule :
  Forall (fun b => b = caCertPem st \/
                   In b (successful_reads (caCertFile (flags st)) schedule))
         (patched_bundles (snd (loop st schedule))).
Proof.
  revert st. induction schedule as [|[w wk] rest IH]; intros st; [constructor|].
  rewrite loop_cons, snd_bind, patched_bundles_app. apply Forall_app.
  destruct (select_iteration_frame st w wk) as (Hf & _).
  specialize (IH (fst (select_iteration st w wk))). rewrite Hf in IH.
  destruct wk as [|fe].
  - rewrite tick_patched_bundles. split; [repeat constructor|].
    cbn [successful_reads]. eapply Forall_impl; [|exact IH].
    intros b [Hb|Hin]; [left|right; exact Hin].
    rewrite Hb, tick_state. reflexivity.
  - rewrite event_patched_bundles. split; [constructor|].
    cbn [successful_reads]. eapply Forall_impl; [|exact IH].
    intros b [Hb|Hin].
    + rewrite event_state in Hb.
      destruct (snd (ReadFile w (caCertFile (flags st)))) as [e|].
      * left. exact Hb.
      * right. left. rewrite Hb. reflexivity.
    + destruct (snd (ReadFile w (caCertFile (flags st)))) as [e|].
      * right. exact Hin.
      * right. right. exact Hin.
Qed.

(** While no read succeeds, the cache stays and every tick patches it. *)
Lemma loop_without_refresh st schedule :
  successful_reads (caCertFile (flags st)) schedule = [] ->
  caCertPem (fst (loop st schedule)) = caCertPem st /\
  patched_bundles (snd (loop st schedule)) = repeat (caCertPem st) (ticks schedule).
Proof.
  revert st. induction schedule as [|[w wk] rest IH]; intros st H; [split; reflexivity|].
  rewrite loop_cons, fst_bind, snd_bind, patched_bundles_app.
  destruct (select_iteration_frame st w wk) as (Hf & _).
  specialize (IH (fst (select_iteration st w wk))). rewrite Hf in IH.
  destruct wk as [|fe].
  - cbn [successful_reads] in H. destruct (IH H) as (Hc & Hp).
    rewrite tick_patched_bundles, Hc, Hp, tick_state. split; reflexivity.
  - cbn [successful_reads] in H. rewrite event_patched_bundles.
    rewrite event_state in IH |- *.
    destruct (snd (ReadFile w (caCertFile (flags st)))) as [e|]; [|discriminate].
    destruct (IH H) as (Hc & Hp). split; [exact Hc|exact Hp].
Qed.

Lemma loop_read_count st schedule :
  read_paths (snd (loop st schedule)) =
  repeat (caCertFile (flags st)) (notifications schedule).
Proof.
  revert st. induction schedule as [|[w wk] rest IH]; intros st; [reflexivity|].
  rewrite loop_cons, snd_bind, read_paths_app, IH.
  destruct (select_iteration_frame st w wk) as (-> & _).
  destruct wk as [|fe].
  - rewrite tick_trace. destruct (PatchMutatingWebhookConfig w _ _ _ _); reflexivity.
  - rewrite event_trace. destruct (snd (ReadFile w _)); reflexivity.
Qed.

Lemma watched_paths_app ta tb :
  watched_paths (ta ++ tb) = watched_paths ta ++ watched_paths tb.
Proof.
  induction ta as [|c ta IH]; [reflexivity|].
  destruct c; simpl; rewrite IH; reflexivity.
Qed.

Lemma loop_watched_paths st schedule : watched_paths (snd (loop st schedule)) = [].
Proof.
  revert st. induction schedule as [|[w wk] rest IH]; intros st; [reflexivity|].
  rewrite loop_cons, snd_bind, watched_paths_app, IH, app_nil_r.
  destruct wk as [|fe].
  - rewrite tick_trace. destruct (PatchMutatingWebhookConfig w _ _ _ _); reflexivity.
  - rewrite event_trace. destruct (snd (ReadFile w _)); reflexivity.
Qed.

Lemma patchCertLoop_read_once fl w :
  read_paths (snd (patchCertLoop fl w)) =
  if client_created fl w then [caCertFile fl] else [].
Proof.
  pose proof (patchCertLoop_cases fl w) as Hc. cbv zeta in Hc.
  unfold client_created.
  destruct (CreateClientset w (kubeconfigFile fl) "") as [cl|e]; [|rewrite Hc; reflexivity].
  destruct (snd (ReadFile w (caCertFile fl))) as [e|]; [rewrite Hc; reflexivity|].
  destruct (NewWatcher w) as [wt|e]; [|rewrite Hc; reflexivity].
  destruct (Watch w wt _) as [m|]; rewrite Hc; reflexivity.
Qed.

(** X1.  Start-up stops at the first call that fails: the file is read
    only with a client in hand, the watcher created only after a
    successful read, the watch registered only on a watcher, and the
    goroutine started only after all four. *)
Theorem startup_stops_at_first_failure fl w :
  existsb is_read (snd (patchCertLoop fl w)) = client_created fl w /\
  existsb is_new_watcher (snd (patchCertLoop fl w)) =
    (client_created fl w && initial_read_ok fl w) /\
  existsb is_watch (snd (patchCertLoop fl w)) =
    (client_created fl w && initial_read_ok fl w && watcher_created w) /\
  existsb is_go (snd (patchCertLoop fl w)) =
    (client_created fl w && initial_read_ok fl w &&
     watcher_created w && watch_registered fl w).
Proof.
  pose proof (patchCertLoop_cases fl w) as Hc. cbv zeta in Hc.
  unfold client_created, initial_read_ok, watcher_created, watch_registered.
  destruct (CreateClientset w (kubeconfigFile fl) "") as [cl|e];
    [|rewrite Hc; repeat split; reflexivity].
  destruct (snd (ReadFile w (caCertFile fl))) as [e|];
    [rewrite Hc; repeat split; reflexivity|].
  destruct (NewWatcher w) as [wt|e]; [|rewrite Hc; repeat split; reflexivity].
  destruct (Watch w wt _) as [m|]; rewrite Hc; repeat split; reflexivity.
Qed.

(** X2.  Whatever the schedule, every bundle the run patches is the
    content of the start-up read or the content of a successful read
    triggered by a notification: no other bytes reach the remote
    resource. *)
Theorem patched_bundles_come_from_reads fl w0 schedule :
  Forall (fun b => b = fst (ReadFile w0 (caCertFile fl)) \/
                   In b (successful_reads (caCertFile fl) schedule))
         (patched_bundles (snd (run fl w0 schedule))).
Proof.
  destruct (started (patchCertLoop fl w0)) eqn:E.
  - destruct (started_inv fl w0 E) as (st & Hsome).
    destruct (run_started fl w0 st schedule Hsome) as (_ & ->).
    destruct (patchCertLoop_started fl w0 st Hsome) as (cl & wt & _ & _ & _ & _ & Hst & _).
    rewrite patched_bundles_app, patchCertLoop_patched_bundles. cbn [app patched_bundles].
    pose proof (loop_patched_from_reads st schedule) as H.
    subst st. exact H.
  - destruct (run_not_started fl w0 schedule (not_started_inv fl w0 E)) as (_ & ->).
    rewrite patchCertLoop_patched_bundles. constructor.
Qed.

(** X3.  After a notification whose read succeeds with content [b],
    every tick patches [b] until another read succeeds, however many
    reads or patches fail in between; so the tick that follows patches
    [b]. *)
Theorem refresh_reaches_next_ticks st w fe mid w' b :
  ReadFile w (caCertFile (flags st)) = (b, None) ->
  successful_reads (caCertFile (flags st)) mid = [] ->
  patched_bundles (snd (loop st ((w, watcher_Event fe) :: mid ++ [(w', tickerC)]))) =
    repeat b (S (ticks mid)) /\
  caCertPem (fst (loop st ((w, watcher_Event fe) :: mid ++ [(w', tickerC)]))) = b.
Proof.
  intros Hread Hmid.
  rewrite loop_cons, fst_bind, snd_bind, patched_bundles_app, event_patched_bundles.
  rewrite event_state, Hread. cbn [fst snd app].
  set (st1 := set_caCertPem st b).
  assert (Hnone : successful_reads (caCertFile (flags st1)) (mid ++ [(w', tickerC)]) = []).
  { clear -Hmid. subst st1. cbn [flags set_caCertPem].
    induction mid as [|[w1 [|fe1]] mid IH]; [reflexivity| |].
    - cbn [app successful_reads] in *. apply IH, Hmid.
    - cbn [app successful_reads] in *.
      destruct (snd (ReadFile w1 _)); [apply IH, Hmid|discriminate]. }
  destruct (loop_without_refresh st1 _ Hnone) as (Hc & Hp).
  rewrite Hc, Hp. split; [|reflexivity].
  unfold ticks. rewrite filter_app, length_app. cbn [filter is_tick snd List.length].
  rewrite Nat.add_1_r. reflexivity.
Qed.

(** X4.  The certificate file is read once at start-up and once for each
    notification, never at a tick, and always at the configured path; the
    watch is registered at most once and never again by the loop. *)
Theorem reads_once_per_notification fl w schedule :
  read_paths (snd (run fl w schedule)) =
    (if started (patchCertLoop fl w)
     then repeat (caCertFile fl) (S (notifications schedule))
     else if client_created fl w then [caCertFile fl] else []) /\
  List.length (watched_paths (snd (run fl w schedule))) <= 1.
Proof.
  destruct (started (patchCertLoop fl w)) eqn:E.
  - destruct (started_inv fl w E) as (st & Hsome).
    destruct (run_started fl w st schedule Hsome) as (_ & ->).
    destruct (patchCertLoop_started fl w st Hsome) as (cl & wt & _ & _ & _ & _ & Hst & Hp).
    split.
    + rewrite read_paths_app. cbn [read_paths]. rewrite loop_read_count, Hp, Hst.
      reflexivity.
    + rewrite watched_paths_app. cbn [watched_paths].
      rewrite loop_watched_paths, Hp. simpl. lia.
  - destruct (run_not_started fl w schedule (not_started_inv fl w E)) as (_ & ->).
    split; [apply patchCertLoop_read_once|].
    rewrite patchCertLoop_watched_paths.
    destruct (client_created fl w && initial_read_ok fl w && watcher_created w);
      simpl; lia.
Qed.

(** X5.  The loop logs at most one line per wake-up, and nothing at all
    while the reads and the patches succeed. *)
Theorem quiet_when_healthy st schedule :
  Forall (fun e => healthy (caCertFile (flags st)) (fst e)) schedule ->
  logged (snd (loop st schedule)) = [] /\
  forall schedule', List.length (logged (snd (loop st schedule'))) <= List.length schedule'.
Proof.
  intros H. split.
  - revert st H. induction schedule as [|[w wk] rest IH]; intros st H; [reflexivity|].
    inversion H as [|? ? [Hr Hp] Hrest]; subst. cbn [fst] in Hr, Hp.
    rewrite loop_cons, snd_bind, logged_app.
    destruct (select_iteration_frame st w wk) as (Hf & _).
    rewrite IH by (rewrite Hf; exact Hrest). rewrite app_nil_r.
    destruct wk as [|fe].
    + rewrite tick_trace, Hp. reflexivity.
    + rewrite event_trace, Hr. reflexivity.
  - clear. intros schedule'. revert st.
    induction schedule' as [|[w wk] rest IH]; intros st; [simpl; lia|].
    rewrite loop_cons, snd_bind, logged_app, length_app.
    specialize (IH (fst (select_iteration st w wk))).
    destruct wk as [|fe].
    + rewrite tick_trace. unfold patch_of.
      destruct (PatchMutatingWebhookConfig w _ _ _ _);
        cbv beta; cbn [logged List.length]; lia.
    + rewrite event_trace.
      destruct (snd (ReadFile w _)); cbv beta; cbn [logged List.length]; lia.
Qed.

(** X6.  [filepath.Split] recovers any directory and file it is given
    joined: when [d] is empty or ends in a separator and [f] holds no
    separator, the certificate path [d ++ f] is watched through [d], so
    all files of one directory share one watched path. *)
Theorem Split_of_dir_and_file (d f : string) fl w :
  ends_in_separator d -> no_separator f -> caCertFile fl = (d ++ f)%string ->
  filepath.Split (d ++ f)%string = (d, f) /\
  watched_paths (snd (patchCertLoop fl w)) =
    (if client_created fl w && initial_read_ok fl w && watcher_created w
     then [d] else []).
Proof.
  intros Hd Hf Hpath.
  assert (Hs : filepath.Split (d ++ f)%string = (d, f)).
  { unfold filepath.Split.
    rewrite SplitMore.length_append.
    rewrite (SplitMore.scan_back_append d f (String.length f) Hd Hf (Nat.le_refl _)).
    rewrite SplitMore.substring_append_prefix.
    replace (String.length d + String.length f - String.length d)
      with (String.length f) by lia.
    rewrite SplitMore.substring_append_suffix. reflexivity. }
  split; [exact Hs|].
  rewrite patchCertLoop_watched_paths, Hpath, Hs. reflexivity.
Qed.

(** X7.  A certificate path without any separator, a bare file name, has
    the empty directory part: the watch is then registered on the empty
    path, not on the working directory. *)
Theorem bare_file_name_watches_empty_path fl w :
  no_separator (caCertFile fl) ->
  filepath.Split (caCertFile fl) = (EmptyString, caCertFile fl) /\
  watched_paths (snd (patchCertLoop fl w)) =
    (if client_created fl w && initial_read_ok fl w && watcher_created w
     then [EmptyString] else []).
Proof.
  intros H.
  assert (Hs : filepath.Split (caCertFile fl) = (EmptyString, caCertFile fl)).
  { unfold filepath.Split.
    pose proof (SplitMore.scan_back_append EmptyString (caCertFile fl)
                  (String.length (caCertFile fl)) (or_introl eq_refl) H
                  (Nat.le_refl _)) as Hsb.
    simpl in Hsb. rewrite Hsb, Nat.sub_0_r, SplitMore.substring_whole.
    destruct (caCertFile fl); reflexivity. }
  split; [exact Hs|].
  rewrite patchCertLoop_watched_paths, Hs. reflexivity.
Qed.

End MoreProperties.

(** ** The commands *)

Section CommandProperties.

Context {Clientset Watcher Webhook : Type}.

Implicit Types (fl : Flags) (mw : @MainWorld Clientset Watcher Webhook)
  (l : list (@Call Clientset Watcher))
  (t ta tb : list (@MainCall Clientset Watcher Webhook)).

Lemma webhooks_run_app ta tb : webhooks_run (ta ++ tb) = webhooks_run ta ++ webhooks_run tb.
Proof.
  induction ta as [|c ta IH]; [reflexivity|].
  destruct c; simpl; rewrite IH; reflexivity.
Qed.

Lemma patchCertLoop_calls_app ta tb :
  patchCertLoop_calls (ta ++ tb) = patchCertLoop_calls ta ++ patchCertLoop_calls tb.
Proof.
  induction ta as [|c ta IH]; [reflexivity|].
  destruct c; simpl; rewrite IH; reflexivity.
Qed.

Lemma webhook_parameters_app ta tb :
  webhook_parameters (ta ++ tb) = webhook_parameters ta ++ webhook_parameters tb.
Proof.
  induction ta as [|c ta IH]; [reflexivity|].
  destruct c; simpl; rewrite IH; reflexivity.
Qed.

Lemma carried_calls l :
  patchCertLoop_calls (map (@PatchCertLoopCall Clientset Watcher Webhook) l) = l /\
  webhooks_run (map (@PatchCertLoopCall Clientset Watcher Webhook) l) = [] /\
  webhook_parameters (map (@PatchCertLoopCall Clientset Watcher Webhook) l) = [] /\
  existsb is_wait_signal (map (@PatchCertLoopCall Clientset Watcher Webhook) l) = false.
Proof.
  induction l as [|c l (IH1 & IH2 & IH3 & IH4)]; [repeat split|].
  simpl. rewrite IH1. repeat split; assumption.
Qed.

(** [RunE], by the answers it gets. *)
Lemma rootCmd_RunE_cases fl mw :
  let t1 := [PrintFlagsCall; ConfigureCall;
             InfofCall ("version " ++ version_Info mw)%string;
             NewWebhookCall (parameters_of fl)] in
  let r := patchCertLoop fl (world mw) in
  match Configure mw with
  | Some e => rootCmd_RunE fl mw = ((Some e, None), [PrintFlagsCall; ConfigureCall])
  | None =>
      match NewWebhook mw (parameters_of fl) with
      | inr e =>
          rootCmd_RunE fl mw =
          ((Some (Prefix mw e "failed to create injection webhook"), None), t1)
      | inl wh =>
          match returned_error r with
          | Some e =>
              rootCmd_RunE fl mw =
              ((Some (Prefix mw e "failed to start patch cert loop"), None),
               t1 ++ map PatchCertLoopCall (snd r))
          | None =>
              rootCmd_RunE fl mw =
              ((None, snd (fst r)),
               (t1 ++ map PatchCertLoopCall (snd r)) ++ [GoRunCall wh; WaitSignalCall])
          end
      end
  end.
Proof.
  cbv zeta. unfold rootCmd_RunE, returned_error.
  destruct (Configure mw); [reflexivity|].
  destruct (NewWebhook mw (parameters_of fl)); [|reflexivity].
  destruct (fst (fst (patchCertLoop fl (world mw)))); reflexivity.
Qed.

(** X8.  [RunE] returns nil exactly when every start-up step succeeds:
    the logging configuration, the creation of the webhook, and the four
    calls of [patchCertLoop].  Exactly then the patch loop is running,
    the webhook server is started (once) and the command waits for a
    signal. *)
Theorem RunE_succeeds_iff_all_steps fl mw :
  match fst (fst (rootCmd_RunE fl mw)) with None => true | Some _ => false end =
    all_steps_ok fl mw /\
  match snd (fst (rootCmd_RunE fl mw)) with Some _ => true | None => false end =
    all_steps_ok fl mw /\
  existsb is_wait_signal (snd (rootCmd_RunE fl mw)) = all_steps_ok fl mw /\
  List.length (webhooks_run (snd (rootCmd_RunE fl mw))) =
    (if all_steps_ok fl mw then 1 else 0).
Proof.
  pose proof (rootCmd_RunE_cases fl mw) as Hc. cbv zeta in Hc.
  destruct (patchCertLoop_outcome fl (world mw)) as (Hs & Hst & _).
  destruct (carried_calls (snd (patchCertLoop fl (world mw)))) as (_ & Hw & _ & Hsig).
  unfold all_steps_ok, webhook_created.
  destruct (Configure mw) as [e|]; [rewrite Hc; repeat split; reflexivity|].
  destruct (NewWebhook mw (parameters_of fl)) as [wh|e];
    [|rewrite Hc; repeat split; reflexivity].
  cbn [andb]. rewrite <- Hs. unfold succeeded in *. unfold started in Hst.
  destruct (returned_error (patchCertLoop fl (world mw))) as [e|]; rewrite Hc.
  - cbn [fst snd]. rewrite existsb_app, webhooks_run_app, Hw, Hsig.
    repeat split; reflexivity.
  - cbn [fst snd]. rewrite !existsb_app, !webhooks_run_app, Hw, Hsig.
    repeat split; try reflexivity. exact Hst.
Qed.

(** X9.  [RunE] stops at its first failure: the webhook is created, with
    the parameters taken from the flags, only after logging is
    configured, and [patchCertLoop] is called only after the webhook was
    created; before that it makes no call at all. *)
Theorem RunE_stops_at_first_failure fl mw :
  webhook_parameters (snd (rootCmd_RunE fl mw)) =
    (if log_configured mw then [parameters_of fl] else []) /\
  patchCertLoop_calls (snd (rootCmd_RunE fl mw)) =
    (if log_configured mw && webhook_created fl mw
     then snd (patchCertLoop fl (world mw)) else []).
Proof.
  pose proof (rootCmd_RunE_cases fl mw) as Hc. cbv zeta in Hc.
  destruct (carried_calls (snd (patchCertLoop fl (world mw)))) as (Hl & _ & Hp & _).
  unfold log_configured, webhook_created.
  destruct (Configure mw) as [e|]; [rewrite Hc; split; reflexivity|].
  destruct (NewWebhook mw (parameters_of fl)) as [wh|e];
    [|rewrite Hc; split; reflexivity].
  destruct (returned_error (patchCertLoop fl (world mw))) as [e|]; rewrite Hc;
    cbn [snd];
    rewrite ?webhook_parameters_app, ?patchCertLoop_calls_app, Hl, Hp;
    cbn [webhook_parameters patchCertLoop_calls app andb];
    rewrite ?app_nil_r; split; reflexivity.
Qed.

(** X10.  When the patch loop fails to start, [RunE] returns its error
    under the prefix "failed to start patch cert loop"; the webhook,
    though created, is never run, no goroutine of the patch loop exists,
    and the command does not wait for a signal. *)
Theorem patch_loop_failure_aborts_RunE fl mw wh e :
  Configure mw = None ->
  NewWebhook mw (parameters_of fl) = inl wh ->
  returned_error (patchCertLoop fl (world mw)) = Some e ->
  fst (rootCmd_RunE fl mw) =
    (Some (Prefix mw e "failed to start patch cert loop"), None) /\
  first_startup_failure fl (world mw) = Some e /\
  webhooks_run (snd (rootCmd_RunE fl mw)) = [] /\
  existsb is_wait_signal (snd (rootCmd_RunE fl mw)) = false /\
  existsb is_go (patchCertLoop_calls (snd (rootCmd_RunE fl mw))) = false.
Proof.
  intros Hcfg Hwh He.
  pose proof (rootCmd_RunE_cases fl mw) as Hc. cbv zeta in Hc.
  rewrite Hcfg, Hwh, He in Hc.
  destruct (carried_calls (snd (patchCertLoop fl (world mw)))) as (Hl & Hw & _ & Hsig).
  destruct (patchCertLoop_outcome fl (world mw)) as (_ & Hst & Hgo).
  rewrite Hc. cbn [fst snd].
  rewrite webhooks_run_app, existsb_app, patchCertLoop_calls_app, Hl, Hw, Hsig.
  split; [reflexivity|]. split.
  - rewrite <- patchCertLoop_returned_error. exact He.
  - split; [reflexivity|]. split; [reflexivity|].
    cbn [patchCertLoop_calls app]. rewrite Hgo, Hst.
    unfold succeeded. rewrite He. reflexivity.
Qed.

End CommandProperties.

(** X11.  The probe command returns nil exactly when the options are
    valid and the status is good, prints the line OK exactly then and
    nothing otherwise, and asks for the status only of valid options. *)
Theorem probe_prints_OK_iff_good o pw :
  match fst (probeCmd_RunE o pw) with None => true | Some _ => false end =
    (IsValid pw o && status_ok o pw) /\
  printed (snd (probeCmd_RunE o pw)) =
    (if IsValid pw o && status_ok o pw then ["OK"%string] else []) /\
  inspected (snd (probeCmd_RunE o pw)) = (if IsValid pw o then [o] else []).
Proof.
  unfold probeCmd_RunE, status_ok.
  destruct (IsValid pw o); [|repeat split; reflexivity].
  destruct (GetStatus pw o); repeat split; reflexivity.
Qed.

(** ** The further properties at concrete inputs *)

Lemma root_cert_pem_no_separator : no_separator "root-cert.pem".
Proof.
  intros i Hi. do 13 (destruct i as [|i]; [reflexivity|]). simpl in Hi. lia.
Qed.

Lemma certs_dir_ends_in_separator : ends_in_separator "/etc/istio/certs/".
Proof. right. exists 16. split; reflexivity. Qed.

Lemma rotation_healthy :
  Forall (fun e : @World unit unit * Wakeup =>
            healthy (caCertFile (flags (closure_with CERT_A))) (fst e)) rotation.
Proof. repeat constructor. Qed.

Lemma refresh_reaches_next_ticks_witness :
  ReadFile (world_with CERT_B) (caCertFile (flags (closure_with CERT_A))) = (CERT_B, None) /\
  successful_reads (caCertFile (flags (closure_with CERT_A))) failing_between = [] /\
  patched_bundles
    (snd (loop (closure_with CERT_A)
            ((world_with CERT_B, watcher_Event (ev "/etc/istio/certs/root-cert.pem"))
             :: failing_between ++ [(world_with CERT_A, tickerC)]))) =
  [CERT_B; CERT_B].
Proof.
  split; [reflexivity|]. split; [reflexivity|].
  exact (proj1 (refresh_reaches_next_ticks (closure_with CERT_A) (world_with CERT_B)
                  (ev "/etc/istio/certs/root-cert.pem") failing_between
                  (world_with CERT_A) CERT_B eq_refl eq_refl)).
Defined.

Lemma quiet_when_healthy_witness :
  Forall (fun e : @World unit unit * Wakeup =>
            healthy (caCertFile (flags (closure_with CERT_A))) (fst e)) rotation /\
  logged (snd (loop (closure_with CERT_A) rotation)) = [].
Proof.
  split; [exact rotation_healthy|].
  exact (proj1 (quiet_when_healthy (closure_with CERT_A) rotation rotation_healthy)).
Defined.

Lemma Split_of_dir_and_file_witness :
  ends_in_separator "/etc/istio/certs/" /\
  no_separator "root-cert.pem" /\
  caCertFile default_flags = ("/etc/istio/certs/" ++ "root-cert.pem")%string /\
  filepath.Split ("/etc/istio/certs/" ++ "root-cert.pem")%string =
    ("/etc/istio/certs/", "root-cert.pem").
Proof.
  split; [exact certs_dir_ends_in_separator|].
  split; [exact root_cert_pem_no_separator|]. split; [reflexivity|].
  exact (proj1 (Split_of_dir_and_file "/etc/istio/certs/" "root-cert.pem"
                  default_flags (world_with CERT_A)
                  certs_dir_ends_in_separator root_cert_pem_no_separator eq_refl)).
Defined.

Lemma bare_file_name_watches_empty_path_witness :
  no_separator (caCertFile bare_flags) /\
  watched_paths (snd (patchCertLoop bare_flags (world_with CERT_A))) = [EmptyString].
Proof.
  split; [exact root_cert_pem_no_separator|].
  exact (proj2 (bare_file_name_watches_empty_path bare_flags (world_with CERT_A)
                  root_cert_pem_no_separator)).
Defined.

Lemma patch_loop_failure_aborts_RunE_witness :
  Configure (main_world world_missing_file) = None /\
  NewWebhook (main_world world_missing_file) (parameters_of default_flags) = inl tt /\
  returned_error (patchCertLoop default_flags (world (main_world world_missing_file))) =
    Some "no such file or directory" /\
  fst (rootCmd_RunE default_flags (main_world world_missing_file)) =
    (Some "failed to start patch cert loop no such file or directory", None).
Proof.
  split; [reflexivity|]. split; [reflexivity|]. split; [reflexivity|].
  exact (proj1 (patch_loop_failure_aborts_RunE default_flags
                  (main_world world_missing_file) tt "no such file or directory"
                  eq_refl eq_refl eq_refl)).
Defined.
